(** * qemu-nbd: partition lookup and client admission

    A shallow embedding of the two pieces of [qemu-nbd.c] that carry logic:

    - [read_partition] / [find_partition]: decoding of the four 16-byte
      table slots of a boot record and the search for a partition number
      through the primary slots and the extended containers;
    - [nbd_can_accept] / [nbd_accept] / [nbd_client_closed] /
      [termsig_handler] and the [do ... while] loop of [main]: the
      bookkeeping of connected clients and the exit condition of the server.

    C integers are modelled as [Z] with the conversions written out, bytes
    as [Init.Byte.byte] (through coqutil's [byte.unsigned]), the static
    variables of the file as one record that is threaded through the
    handlers. *)

From Stdlib Require Import ZArith List Bool Lia.
From coqutil Require Import Byte Word.LittleEndianList.
Import ListNotations.

Local Open Scope Z_scope.

(** ** Integer conversions of the C types involved *)

Definition to_uint8 (z : Z) : Z := z mod 2 ^ 8.
Definition to_uint32 (z : Z) : Z := z mod 2 ^ 32.
Definition to_uint64 (z : Z) : Z := z mod 2 ^ 64.

(** [int] is 32 bits wide, two's complement. *)
Definition INT_MIN : Z := - 2 ^ 31.
Definition INT_MAX : Z := 2 ^ 31 - 1.
Definition to_int (z : Z) : Z := (z + 2 ^ 31) mod 2 ^ 32 - 2 ^ 31.

(** [off_t] is the signed 64-bit file offset (the tree is built with
    [_FILE_OFFSET_BITS=64]). *)
Definition to_off_t (z : Z) : Z := (z + 2 ^ 63) mod 2 ^ 64 - 2 ^ 63.

(** Values of the system headers the file relies on (Linux). *)
Definition EINVAL : Z := 22.
Definition ENOENT : Z := 2.
Definition EXIT_FAILURE : Z := 1.
Definition EXIT_SUCCESS : Z := 0.

(** ** Partition records *)

(** [struct partition_record], field for field.  The comments give the C
    type of each field: note that [start_cylinder] is a [uint32_t] while
    [end_cylinder] is a [uint8_t]. *)
Record partition_record : Type := {
  bootable : Z;          (* uint8_t *)
  start_head : Z;        (* uint8_t *)
  start_cylinder : Z;    (* uint32_t *)
  start_sector : Z;      (* uint8_t *)
  system : Z;            (* uint8_t *)
  end_head : Z;          (* uint8_t *)
  end_cylinder : Z;      (* uint8_t *)
  end_sector : Z;        (* uint8_t *)
  start_sector_abs : Z;  (* uint32_t *)
  nb_sectors_abs : Z     (* uint32_t *)
}.

(** [p[k]] for a [uint8_t *p]: the byte, promoted to [int]. *)
Definition idx (p : list byte) (k : Z) : Z :=
  byte.unsigned (nth (Z.to_nat k) p Byte.x00).

(** [&data[k]]: the buffer from offset [k] on. *)
Definition ptr (data : list byte) (k : Z) : list byte :=
  skipn (Z.to_nat k) data.

(** [read_partition(p, r)].  The right-hand sides are [int] expressions over
    the promoted bytes; each assignment converts to the type of the field.
    For [p[11] << 24] with [p[11] >= 128] the [int] shift sets the sign bit;
    the conversion to [uint32_t] reduces modulo [2^32] either way, so the
    expression is evaluated in [Z] and reduced once. *)
Definition read_partition (p : list byte) : partition_record :=
  {| bootable := idx p 0;
     start_head := idx p 1;
     start_cylinder :=
       to_uint32 (Z.lor (idx p 3) (Z.land (Z.shiftl (idx p 2) 2) 0x0300));
     start_sector := to_uint8 (Z.land (idx p 2) 0x3f);
     system := idx p 4;
     end_head := idx p 5;
     end_cylinder :=
       to_uint8 (Z.lor (idx p 7) (Z.land (Z.shiftl (idx p 6) 2) 0x300));
     end_sector := to_uint8 (Z.land (idx p 6) 0x3f);
     start_sector_abs :=
       to_uint32 (Z.lor (Z.lor (Z.lor (idx p 8) (Z.shiftl (idx p 9) 8))
                               (Z.shiftl (idx p 10) 16))
                        (Z.shiftl (idx p 11) 24));
     nb_sectors_abs :=
       to_uint32 (Z.lor (Z.lor (Z.lor (idx p 12) (Z.shiftl (idx p 13) 8))
                               (Z.shiftl (idx p 14) 16))
                        (Z.shiftl (idx p 15) 24)) |}.

(** ** The block device *)

(** Modelled from the spec: the storage backend ([block.h], [bdrv_read]) is
    not part of the file.  [bdrv_read(bs, n, buf, 1)] either fills the
    512-byte buffer with sector [n] or returns a negative errno; the model
    keeps the sector or [None]. *)
Record BlockDriverState : Type := {
  sector_at : Z -> option (list byte)
}.

Definition bdrv_read (bs : BlockDriverState) (sector_num : Z)
  : option (list byte) :=
  sector_at bs sector_num.

(** ** find_partition *)

(** The three ways [find_partition] ends: [return 0] with [*offset] and
    [*size] written, [return] of a negative errno with both untouched, or
    [err(EXIT_FAILURE, ...)], which ends the process. *)
Inductive result : Type :=
| Found (offset size : Z)
| Failed (ret : Z)
| Exited (status : Z).

(** [(uint64_t)x << 9], stored in an [off_t]. *)
Definition shl9 (x : Z) : Z :=
  to_off_t (to_uint64 (Z.shiftl (to_uint64 x) 9)).

(** [mbr[i]] (and [ext[j]]): the record decoded at [&data[446 + 16 * i]]. *)
Definition slot (data : list byte) (i : Z) : partition_record :=
  read_partition (ptr data (446 + 16 * i)).

(** [for (j = 0; j < 4; j++)] over the sector of an extended container;
    [jvals] is the list of the values of [j] still to come.  [Some] is the
    [return 0] inside the loop, [None] the normal end of the loop.
    [ext_partnum] is at most 20 here, [ext_partnum + j + 1] does not
    overflow. *)
Fixpoint ext_loop (partition ext_partnum : Z) (data1 : list byte)
    (jvals : list Z) : option (Z * Z) :=
  match jvals with
  | [] => None
  | j :: jvals' =>
      let ext_j := slot data1 j in
      if nb_sectors_abs ext_j =? 0 then
        ext_loop partition ext_partnum data1 jvals'
      else if ext_partnum + j + 1 =? partition then
        Some (shl9 (start_sector_abs ext_j), shl9 (nb_sectors_abs ext_j))
      else ext_loop partition ext_partnum data1 jvals'
  end.

(** [for (i = 0; i < 4; i++)] over the primary slots; [ivals] is the list of
    the values of [i] still to come.  The first component of the result is
    the list of the sectors passed to [bdrv_read], in order. *)
Fixpoint mbr_loop (bs : BlockDriverState) (partition : Z) (data : list byte)
    (ivals : list Z) (ext_partnum : Z) : list Z * result :=
  match ivals with
  | [] => ([], Failed (- ENOENT))
  | i :: ivals' =>
      let mbr_i := slot data i in
      if nb_sectors_abs mbr_i =? 0 then
        mbr_loop bs partition data ivals' ext_partnum
      else if (system mbr_i =? 0xF) || (system mbr_i =? 0x5) then
        match bdrv_read bs (start_sector_abs mbr_i) with
        | None => ([start_sector_abs mbr_i], Exited EXIT_FAILURE)
        | Some data1 =>
            match ext_loop partition ext_partnum data1 [0; 1; 2; 3] with
            | Some (offset, size) =>
                ([start_sector_abs mbr_i], Found offset size)
            | None =>
                let (reads, r) :=
                  mbr_loop bs partition data ivals' (ext_partnum + 4) in
                (start_sector_abs mbr_i :: reads, r)
            end
        end
      else if i + 1 =? partition then
        ([], Found (shl9 (start_sector_abs mbr_i))
                   (shl9 (nb_sectors_abs mbr_i)))
      else mbr_loop bs partition data ivals' ext_partnum
  end.

(** [data[510] != 0x55 || data[511] != 0xaa] *)
Definition bad_signature (data : list byte) : bool :=
  negb (idx data 510 =? 0x55) || negb (idx data 511 =? 0xaa).

Definition find_partition (bs : BlockDriverState) (partition : Z)
  : list Z * result :=
  match bdrv_read bs 0 with
  | None => ([0], Exited EXIT_FAILURE)
  | Some data =>
      if bad_signature data then ([0], Failed (- EINVAL))
      else
        let (reads, r) := mbr_loop bs partition data [0; 1; 2; 3] 4 in
        (0 :: reads, r)
  end.

(** ** Client admission and the server loop *)

(** The static variables of the file that the handlers touch.  [shared] is
    set once from the command line ([-e], at least 1, default 1). *)
Record server : Type := {
  sigterm_reported : bool;
  nbd_started : bool;
  shared : Z;   (* int *)
  nb_fds : Z    (* int *)
}.

Definition set_nb_fds (n : Z) (st : server) : server :=
  {| sigterm_reported := sigterm_reported st;
     nbd_started := nbd_started st;
     shared := shared st;
     nb_fds := n |}.

Definition set_nbd_started (b : bool) (st : server) : server :=
  {| sigterm_reported := sigterm_reported st;
     nbd_started := b;
     shared := shared st;
     nb_fds := nb_fds st |}.

Definition set_sigterm_reported (b : bool) (st : server) : server :=
  {| sigterm_reported := b;
     nbd_started := nbd_started st;
     shared := shared st;
     nb_fds := nb_fds st |}.

(** The state [main] starts the loop in, for a given [-e] value. *)
Definition initial (e : Z) : server :=
  {| sigterm_reported := false; nbd_started := false;
     shared := e; nb_fds := 0 |}.

(** [termsig_handler]; [qemu_notify_event] only wakes the loop. *)
Definition termsig_handler (st : server) : server :=
  set_sigterm_reported true st.

(** [nbd_can_accept]: [nb_fds < shared]. *)
Definition nbd_can_accept (st : server) : bool :=
  nb_fds st <? shared st.

(** [nbd_client_closed]: [nb_fds--]. *)
Definition nbd_client_closed (st : server) : server :=
  set_nb_fds (to_int (nb_fds st - 1)) st.

(** [nbd_accept].  [fd] is what [accept] returned (negative on error) and
    [client] tells whether [nbd_client_new] returned a client; it is only
    consulted when [fd >= 0], as [&&] does. *)
Definition nbd_accept (fd : Z) (client : bool) (st : server) : server :=
  let st := set_nbd_started true st in
  if (0 <=? fd) && client then set_nb_fds (to_int (nb_fds st + 1)) st
  else st.

(** What one call of [main_loop_wait] can run. *)
Inductive event : Type :=
| Readable (fd : Z) (client : bool)
    (* the listening socket is readable; [accept] would return [fd] and
       [nbd_client_new] would answer [client] *)
| Closed
    (* the protocol engine calls the close callback of a client *)
| Sigterm.
    (* SIGTERM is delivered *)

(** Modelled from the spec: [main_loop_wait] and [qemu_set_fd_handler2] are
    not part of the file.  The listening socket is registered with
    [nbd_can_accept] as its poll guard and [nbd_accept] as its read handler:
    the socket is only watched, and [nbd_accept] only run, while the guard
    answers true. *)
Definition dispatch (st : server) (e : event) : server :=
  match e with
  | Readable fd client =>
      if nbd_can_accept st then nbd_accept fd client st else st
  | Closed => nbd_client_closed st
  | Sigterm => termsig_handler st
  end.

Definition main_loop_wait (events : list event) (st : server) : server :=
  fold_left dispatch events st.

(** The condition of the [do ... while] of [main]:
    [!sigterm_reported && (persistent || !nbd_started || nb_fds > 0)]. *)
Definition loop_condition (persistent : bool) (st : server) : bool :=
  negb (sigterm_reported st)
  && (persistent || negb (nbd_started st) || (0 <? nb_fds st)).

(** [do { main_loop_wait(false); } while (...)], run on the events of the
    successive iterations.  [Some st] is the state the loop is left in;
    [None] means the loop is still running when the given iterations are
    used up. *)
Fixpoint main_loop (persistent : bool) (iterations : list (list event))
    (st : server) : option server :=
  match iterations with
  | [] => None
  | events :: iterations' =>
      let st' := main_loop_wait events st in
      if loop_condition persistent st' then
        main_loop persistent iterations' st'
      else Some st'
  end.

(** ** The client thread *)

(** What the calls of [nbd_client_thread] into the system and into the
    protocol engine answer, and the static variable [verbose]. *)
Record thread_env : Type := {
  verbose : bool;
  unix_socket_outgoing : Z;   (* the socket, negative on error *)
  nbd_receive_negotiate : Z;  (* negative on error *)
  open_device : Z;            (* [open(device, O_RDWR)] *)
  nbd_init : Z;               (* negative on error *)
  nbd_client : Z              (* not 0 on error *)
}.

(** The calls the thread makes, in the order it makes them. *)
Inductive call : Type :=
| CallSocket
| CallNegotiate (sock : Z)
| CallOpen
| PrintOpenFailed
| CallInit (fd sock : Z)
| SpawnShowParts
| PrintConnected
| Dup2Stderr
| CallClient (fd : Z)
| CallClose (fd : Z)
| KillSigterm.

(** The label [out]: [kill(getpid(), SIGTERM); return EXIT_FAILURE]. *)
Definition out (done : list call) : list call * Z :=
  (done ++ [KillSigterm], EXIT_FAILURE).

(** [nbd_client_thread]: the calls made and the value returned. *)
Definition nbd_client_thread (env : thread_env) : list call * Z :=
  let sock := unix_socket_outgoing env in
  if sock <? 0 then out [CallSocket]
  else
    let ret := nbd_receive_negotiate env in
    if ret <? 0 then out [CallSocket; CallNegotiate sock]
    else
      let fd := open_device env in
      if fd <? 0 then
        out [CallSocket; CallNegotiate sock; CallOpen; PrintOpenFailed]
      else
        let ret := nbd_init env in
        if ret <? 0 then
          out [CallSocket; CallNegotiate sock; CallOpen; CallInit fd sock]
        else
          let report := if verbose env then PrintConnected else Dup2Stderr in
          let ret := nbd_client env in
          if negb (ret =? 0) then
            out [CallSocket; CallNegotiate sock; CallOpen; CallInit fd sock;
                 SpawnShowParts; report; CallClient fd]
          else
            ([CallSocket; CallNegotiate sock; CallOpen; CallInit fd sock;
              SpawnShowParts; report; CallClient fd; CallClose fd;
              KillSigterm],
             EXIT_SUCCESS).

(** ** main *)

(** What the calls of [main] outside the file answer. *)
Record main_env : Type := {
  bdrv_open_debug : Z;
  bdrv_getlength : Z;
  tcp_socket_incoming : Z;
  chdir_root : Z;
  pthread_join : Z   (* the value of the client thread *)
}.

(** How [main] ends: [return], [exit], or still inside its loop when the
    given iterations are used up. *)
Inductive main_end : Type :=
| Return (status : Z)
| Exit (status : Z)
| StillRunning.

Record main_run : Type := {
  lookup_reads : list Z;          (* sectors read by [find_partition] *)
  exported : option (Z * Z);      (* [dev_offset], [fd_size] of the export *)
  export_closed : bool;           (* [nbd_export_close] was called *)
  ended : main_end
}.

(** The part of [main] from [nbd_export_new] on: the export of [range],
    the listening socket, the loop and the exit. *)
Definition main_serve (env : main_env) (reads : list Z) (range : Z * Z)
    (persistent device : bool) (iterations : list (list event))
  : main_run :=
  if tcp_socket_incoming env <? 0 then
    {| lookup_reads := reads; exported := Some range;
       export_closed := false; ended := Return 1 |}
  else
    match main_loop persistent iterations (initial 1) with
    | None =>
        {| lookup_reads := reads; exported := Some range;
           export_closed := false; ended := StillRunning |}
    | Some _ =>
        {| lookup_reads := reads; exported := Some range;
           export_closed := true;
           ended := if device
                    then Exit (if pthread_join env =? 0 then 0 else 1)
                    else Exit EXIT_SUCCESS |}
    end.

(** [main], with the locals it initialises and never assigns
    ([partition = -1], [persistent = 0], [device = NULL],
    [dev_offset = 0]) written as it has them; the static variables start
    as [initial 1].  The results of [bdrv_open_debug] and of [chdir] only
    set [errno] or print, and so does a negative result of
    [find_partition]. *)
Definition main (env : main_env) (bs : BlockDriverState)
    (iterations : list (list event)) : main_run :=
  let dev_offset := 0 in
  let partition := -1 in
  let persistent := false in
  let device := false in
  let fd_size := bdrv_getlength env in
  if negb (partition =? -1) then
    match find_partition bs partition with
    | (reads, Found offset size) =>
        main_serve env reads (offset, size) persistent device iterations
    | (reads, Failed ret) =>
        main_serve env reads (dev_offset, fd_size) persistent device
                   iterations
    | (reads, Exited status) =>
        {| lookup_reads := reads; exported := None;
           export_closed := false; ended := Exit status |}
    end
  else
    main_serve env [] (dev_offset, fd_size) persistent device iterations.

(** ** Concrete images and slots used in the examples *)

Module Fixtures.

(** A table slot with the given system byte, start and length. *)
Definition mk_slot (sys start nb : Z) : list byte :=
  [Byte.x00; Byte.x00; Byte.x00; Byte.x00; byte.of_Z sys;
   Byte.x00; Byte.x00; Byte.x00]
  ++ le_split 4 start ++ le_split 4 nb.

Definition empty_slot : list byte := repeat Byte.x00 16.

(** A sector with the four slots and the two trailing bytes given. *)
Definition mk_sector (s0 s1 s2 s3 : list byte) (t0 t1 : byte)
  : list byte :=
  repeat Byte.x00 446 ++ s0 ++ s1 ++ s2 ++ s3 ++ [t0; t1].

Definition boot_sector (s0 s1 s2 s3 : list byte) : list byte :=
  mk_sector s0 s1 s2 s3 Byte.x55 Byte.xaa.

(** An image given by the sectors it can deliver; reading any other
    sector fails. *)
Fixpoint lookup (sectors : list (Z * list byte)) (n : Z)
  : option (list byte) :=
  match sectors with
  | [] => None
  | (k, d) :: rest => if k =? n then Some d else lookup rest n
  end.

Definition image (sectors : list (Z * list byte)) : BlockDriverState :=
  {| sector_at := lookup sectors |}.

(** One Linux partition of 100 MiB at 1 MiB, nothing else. *)
Definition single_sector0 : list byte :=
  boot_sector (mk_slot 0x83 2048 204800) empty_slot empty_slot empty_slot.
Definition single_image : BlockDriverState := image [(0, single_sector0)].

(** A one-sector image: slot 1 names a container at sector 999, which the
    image does not have; slot 2 is a Linux partition; slots 3 and 4 are
    empty. *)
Definition truncated_sector0 : list byte :=
  boot_sector (mk_slot 0x5 999 10) (mk_slot 0x83 2048 204800)
              empty_slot empty_slot.
Definition truncated_image : BlockDriverState :=
  image [(0, truncated_sector0)].

(** A container whose first sub-slot is empty and whose second is in
    use. *)
Definition gap_sector0 : list byte :=
  boot_sector (mk_slot 0x5 999 10) empty_slot empty_slot empty_slot.
Definition gap_ebr : list byte :=
  boot_sector empty_slot (mk_slot 0x83 3000 500) empty_slot empty_slot.
Definition gap_image : BlockDriverState :=
  image [(0, gap_sector0); (999, gap_ebr)].

(** Two containers; the first has one sub-slot in use, the second two.
    The last primary slot is a partition that ends beyond [2^32] bytes. *)
Definition two_sector0 : list byte :=
  boot_sector (mk_slot 0x5 1000 10) (mk_slot 0x83 64 100)
              (mk_slot 0xF 2000 10) (mk_slot 0x83 0xFFFFFFFF 0xFFFFFFFF).
Definition two_ebr1 : list byte :=
  boot_sector (mk_slot 0x83 1001 5) empty_slot empty_slot empty_slot.
Definition two_ebr2 : list byte :=
  boot_sector (mk_slot 0x83 2001 7) (mk_slot 0x82 2010 9)
              empty_slot empty_slot.
Definition two_image : BlockDriverState :=
  image [(0, two_sector0); (1000, two_ebr1); (2000, two_ebr2)].

(** A sector 0 without the boot signature. *)
Definition unsigned_sector0 : list byte :=
  mk_sector (mk_slot 0x83 2048 204800) empty_slot empty_slot empty_slot
            Byte.x55 Byte.x00.
Definition unsigned_image : BlockDriverState :=
  image [(0, unsigned_sector0)].

(** A table slot whose two sector bytes carry cylinder bits 8 and 9. *)
Definition chs_slot : list byte :=
  [Byte.x80; Byte.x01; Byte.xc1; Byte.x02; Byte.x83; Byte.xfe;
   Byte.xc1; Byte.x02]
  ++ le_split 4 2048 ++ le_split 4 204800.

End Fixtures.

(** ** Vocabulary of the statements *)

(** The test of the outer loop that sends a primary slot to the container
    branch: the slot is in use and its system byte is [0xF] or [0x5]. *)
Definition is_container (r : partition_record) : bool :=
  negb (nb_sectors_abs r =? 0) && ((system r =? 0xF) || (system r =? 0x5)).

(** The primary slots, among [ivals], that the loop treats as containers,
    in table order. *)
Definition containers_in (data : list byte) (ivals : list Z) : list Z :=
  filter (fun i => is_container (slot data i)) ivals.

Definition containers (data : list byte) : list Z :=
  containers_in data [0; 1; 2; 3].

(** The first sub-slot of a container sector that is in use, if any. *)
Definition first_populated (data1 : list byte) : option Z :=
  find (fun j => negb (nb_sectors_abs (slot data1 j) =? 0)) [0; 1; 2; 3].

(** Two images whose sectors agree from byte 446 on. *)
Definition same_tables (bs bs' : BlockDriverState) : Prop :=
  forall n, option_map (skipn 446) (bdrv_read bs n)
            = option_map (skipn 446) (bdrv_read bs' n).

(** Every [Closed] in the run comes while a client is counted. *)
Fixpoint closes_matched (events : list event) (st : server) : Prop :=
  match events with
  | [] => True
  | e :: events' =>
      (e = Closed -> 0 < nb_fds st) /\ closes_matched events' (dispatch st e)
  end.

(** The state after the given iterations, whatever the loop condition. *)
Definition run_iterations (iterations : list (list event)) (st : server)
  : server :=
  fold_left (fun s events => main_loop_wait events s) iterations st.

(** * Properties *)

(** ** Integer conversions *)

Lemma idx_range (p : list byte) (k : Z) : 0 <= idx p k < 256.
Proof. unfold idx. change 256 with (2 ^ 8). apply byte.unsigned_range. Qed.

Lemma to_uint8_small (z : Z) : 0 <= z < 256 -> to_uint8 z = z.
Proof. intros H. unfold to_uint8. apply Z.mod_small. lia. Qed.

Lemma to_uint32_range (z : Z) : 0 <= to_uint32 z < 2 ^ 32.
Proof. unfold to_uint32. apply Z.mod_pos_bound. lia. Qed.

Lemma to_uint32_small (z : Z) : 0 <= z < 2 ^ 32 -> to_uint32 z = z.
Proof. intros H. unfold to_uint32. apply Z.mod_small. lia. Qed.

Lemma to_int_small (z : Z) : INT_MIN <= z <= INT_MAX -> to_int z = z.
Proof.
  unfold INT_MIN, INT_MAX, to_int. intros H.
  rewrite Z.mod_small by lia. lia.
Qed.

(** [(uint64_t)x << 9] of a 32-bit [x] is [x * 512], and fits an [off_t]. *)
Lemma shl9_exact (x : Z) : 0 <= x < 2 ^ 32 -> shl9 x = x * 512.
Proof.
  intros H. unfold shl9, to_off_t, to_uint64.
  rewrite Z.shiftl_mul_pow2 by lia.
  rewrite (Z.mod_small x) by lia.
  rewrite (Z.mod_small (x * 2 ^ 9)) by lia.
  rewrite Z.mod_small by lia. lia.
Qed.

(** A byte and a multiple of 256 have no bit in common. *)
Lemma lor_low_high (a k : Z) :
  0 <= a < 256 -> 0 <= k -> Z.lor a (256 * k) = a + 256 * k.
Proof.
  intros Ha Hk.
  assert (D : Z.land a (256 * k) = 0).
  { apply Z.bits_inj'. intros n Hn.
    rewrite Z.land_spec, Z.bits_0.
    destruct (Z.ltb_spec n 8) as [L | L].
    - replace (256 * k) with (Z.shiftl k 8)
        by (rewrite Z.shiftl_mul_pow2; lia).
      rewrite (Z.shiftl_spec_low k 8 n) by lia.
      apply andb_false_r.
    - destruct (Z.eq_dec a 0) as [-> | Ea].
      + rewrite Z.bits_0. reflexivity.
      + rewrite (Z.bits_above_log2 a n); [reflexivity | lia |].
        apply Z.lt_le_trans with 8; [| assumption].
        apply Z.log2_lt_pow2; lia. }
  rewrite Z.add_nocarry_lxor by assumption.
  symmetry. apply Z.lxor_lor. assumption.
Qed.

(** [(b << 2) & 0x300]: bits 6 and 7 of the byte, moved to bits 8 and 9. *)
Lemma high_bits (b : byte) :
  Z.land (Z.shiftl (byte.unsigned b) 2) 0x300 = 256 * (byte.unsigned b / 64).
Proof. destruct b; reflexivity. Qed.

Lemma low_bits (b : byte) :
  Z.land (byte.unsigned b) 0x3f = byte.unsigned b mod 64.
Proof. change 0x3f with (Z.ones 6). apply Z.land_ones. lia. Qed.

(** ** read_partition *)

Section ReadPartition.

Variable p : list byte.

Lemma start_sector_spec :
  start_sector (read_partition p) = idx p 2 mod 64.
Proof.
  cbn [read_partition start_sector]. unfold idx. rewrite low_bits.
  apply to_uint8_small.
  pose proof (Z.mod_pos_bound (byte.unsigned (nth (Z.to_nat 2) p Byte.x00)) 64).
  lia.
Qed.

Lemma end_sector_spec :
  end_sector (read_partition p) = idx p 6 mod 64.
Proof.
  cbn [read_partition end_sector]. unfold idx. rewrite low_bits.
  apply to_uint8_small.
  pose proof (Z.mod_pos_bound (byte.unsigned (nth (Z.to_nat 6) p Byte.x00)) 64).
  lia.
Qed.

(** The [int] value both cylinder assignments compute before the
    conversion to the type of the field. *)
Lemma cylinder_expr (lo sec : Z) :
  Z.lor (idx p lo) (Z.land (Z.shiftl (idx p sec) 2) 0x300)
  = idx p lo + 256 * (idx p sec / 64).
Proof.
  rewrite (high_bits (nth (Z.to_nat sec) p Byte.x00)
            : Z.land (Z.shiftl (idx p sec) 2) 0x300 = _).
  fold (idx p sec).
  apply lor_low_high; [apply idx_range |].
  apply Z.div_pos; [| lia].
  pose proof (idx_range p sec). lia.
Qed.

Lemma cylinder_expr_range (lo sec : Z) :
  0 <= idx p lo + 256 * (idx p sec / 64) <= 1023.
Proof.
  pose proof (idx_range p lo). pose proof (idx_range p sec).
  assert (0 <= idx p sec / 64 <= 3).
  { split; [apply Z.div_pos; lia |].
    apply Z.lt_succ_r. apply Z.div_lt_upper_bound; lia. }
  lia.
Qed.

Lemma start_cylinder_spec :
  start_cylinder (read_partition p) = idx p 3 + 256 * (idx p 2 / 64).
Proof.
  cbn [read_partition start_cylinder].
  change 0x0300 with 0x300. rewrite cylinder_expr.
  apply to_uint32_small.
  pose proof (cylinder_expr_range 3 2). lia.
Qed.

(** The field is a [uint8_t]: bits 8 and 9 do not survive the store. *)
Lemma end_cylinder_spec :
  end_cylinder (read_partition p) = idx p 7.
Proof.
  cbn [read_partition end_cylinder]. rewrite cylinder_expr.
  unfold to_uint8. change (2 ^ 8) with 256.
  rewrite (Z.mul_comm 256), Z.mod_add by lia.
  apply Z.mod_small. apply idx_range.
Qed.

(** The two 32-bit fields are the little-endian values of their four
    bytes. *)
Lemma le32_expr (a b c d : byte) :
  to_uint32
    (Z.lor (Z.lor (Z.lor (byte.unsigned a) (Z.shiftl (byte.unsigned b) 8))
                  (Z.shiftl (byte.unsigned c) 16))
           (Z.shiftl (byte.unsigned d) 24))
  = le_combine [a; b; c; d].
Proof.
  replace (Z.lor (Z.lor (Z.lor (byte.unsigned a)
                               (Z.shiftl (byte.unsigned b) 8))
                        (Z.shiftl (byte.unsigned c) 16))
                 (Z.shiftl (byte.unsigned d) 24))
    with (le_combine [a; b; c; d]).
  - apply to_uint32_small. apply (le_combine_bound [a; b; c; d]).
  - cbv [le_combine].
    rewrite Z.shiftl_0_l, Z.lor_0_r.
    rewrite !Z.shiftl_lor, !Z.shiftl_shiftl by lia.
    cbn [Z.add Pos.add Pos.succ].
    rewrite !Z.lor_assoc. reflexivity.
Qed.

Lemma start_sector_abs_le :
  start_sector_abs (read_partition p)
  = le_combine [nth 8 p Byte.x00; nth 9 p Byte.x00;
                nth 10 p Byte.x00; nth 11 p Byte.x00].
Proof. apply le32_expr. Qed.

Lemma nb_sectors_abs_le :
  nb_sectors_abs (read_partition p)
  = le_combine [nth 12 p Byte.x00; nth 13 p Byte.x00;
                nth 14 p Byte.x00; nth 15 p Byte.x00].
Proof. apply le32_expr. Qed.

Lemma start_sector_abs_range :
  0 <= start_sector_abs (read_partition p) < 2 ^ 32.
Proof. apply to_uint32_range. Qed.

Lemma nb_sectors_abs_range :
  0 <= nb_sectors_abs (read_partition p) < 2 ^ 32.
Proof. apply to_uint32_range. Qed.

End ReadPartition.

(** ** The loops of find_partition *)

Lemma in_0123 (j : Z) : In j [0; 1; 2; 3] <-> 0 <= j < 4.
Proof.
  cbn. split.
  - intros [<- | [<- | [<- | [<- | []]]]]; lia.
  - intros H.
    assert (j = 0 \/ j = 1 \/ j = 2 \/ j = 3) as [-> | [-> | [-> | ->]]] by lia;
      auto.
Qed.

Lemma is_container_false (r : partition_record) :
  is_container r = false <->
  nb_sectors_abs r = 0 \/ (system r <> 0xF /\ system r <> 0x5).
Proof.
  unfold is_container.
  rewrite andb_false_iff, negb_false_iff, orb_false_iff, Z.eqb_eq, !Z.eqb_neq.
  reflexivity.
Qed.

(** Splits on the tests a loop body makes on the slot it looks at. *)
Ltac slot_cases :=
  repeat match goal with
    | |- context [?a =? ?b] => destruct (Z.eqb_spec a b)
    end;
  cbn [orb andb negb] in *.

Section Loops.

Variable bs : BlockDriverState.
Variable partition : Z.

(** The inner loop stops at a sub-slot that is in use and carries the
    requested number. *)
Lemma ext_loop_found (data1 : list byte) (e j : Z) (jvals : list Z) :
  In j jvals ->
  nb_sectors_abs (slot data1 j) <> 0 ->
  e + j + 1 = partition ->
  ext_loop partition e data1 jvals
  = Some (shl9 (start_sector_abs (slot data1 j)),
          shl9 (nb_sectors_abs (slot data1 j))).
Proof.
  intros Hin Hnb He. induction jvals as [| j0 jvals IH]; [destruct Hin |].
  cbn [ext_loop]. destruct Hin as [-> | Hin].
  - slot_cases; congruence.
  - slot_cases; auto.
    assert (j0 = j) as -> by lia. reflexivity.
Qed.

(** It runs to its end when no sub-slot in use carries the number. *)
Lemma ext_loop_none (data1 : list byte) (e : Z) (jvals : list Z) :
  (forall j, In j jvals ->
             nb_sectors_abs (slot data1 j) = 0 \/ e + j + 1 <> partition) ->
  ext_loop partition e data1 jvals = None.
Proof.
  induction jvals as [| j0 jvals IH]; intros H; [reflexivity |].
  cbn [ext_loop].
  destruct (H j0 (or_introl eq_refl)); slot_cases;
    try congruence; apply IH; intros; apply H; right; assumption.
Qed.

Lemma ext_loop_some_inv (data1 : list byte) (e : Z) (jvals : list Z)
    (o s : Z) :
  ext_loop partition e data1 jvals = Some (o, s) ->
  exists j, In j jvals /\ nb_sectors_abs (slot data1 j) <> 0
            /\ e + j + 1 = partition
            /\ o = shl9 (start_sector_abs (slot data1 j))
            /\ s = shl9 (nb_sectors_abs (slot data1 j)).
Proof.
  induction jvals as [| j0 jvals IH]; cbn [ext_loop]; [discriminate |].
  slot_cases; intros H.
  - destruct (IH H) as (j & Hj & R). exists j. split; [right |]; assumption.
  - injection H as <- <-. exists j0. cbn. auto.
  - destruct (IH H) as (j & Hj & R). exists j. split; [right |]; assumption.
Qed.

(** One turn of the outer loop, with its first two tests read as
    [is_container]. *)
Lemma mbr_loop_cons (data : list byte) (i : Z) (ivals : list Z) (e : Z) :
  mbr_loop bs partition data (i :: ivals) e =
  if is_container (slot data i) then
    match bdrv_read bs (start_sector_abs (slot data i)) with
    | None => ([start_sector_abs (slot data i)], Exited EXIT_FAILURE)
    | Some data1 =>
        match ext_loop partition e data1 [0; 1; 2; 3] with
        | Some (offset, size) =>
            ([start_sector_abs (slot data i)], Found offset size)
        | None =>
            let (reads, r) := mbr_loop bs partition data ivals (e + 4) in
            (start_sector_abs (slot data i) :: reads, r)
        end
    end
  else if negb (nb_sectors_abs (slot data i) =? 0) && (i + 1 =? partition)
  then ([], Found (shl9 (start_sector_abs (slot data i)))
                  (shl9 (nb_sectors_abs (slot data i))))
  else mbr_loop bs partition data ivals e.
Proof.
  cbn [mbr_loop]. unfold is_container.
  destruct (nb_sectors_abs (slot data i) =? 0); cbn [negb andb];
    [reflexivity |].
  destruct ((system (slot data i) =? 0xF) || (system (slot data i) =? 0x5));
    reflexivity.
Qed.

Lemma containers_in_cons (data : list byte) (i : Z) (ivals : list Z) :
  containers_in data (i :: ivals) =
  if is_container (slot data i) then i :: containers_in data ivals
  else containers_in data ivals.
Proof. reflexivity. Qed.

(** A primary slot in use that is no container is found under its own
    number, provided the containers in front of it can be read. *)
Lemma mbr_loop_primary (data : list byte) (k : Z) (post : list Z) :
  forall (pre : list Z) (e : Z),
    4 <= e -> partition <= 4 ->
    partition = k + 1 ->
    nb_sectors_abs (slot data k) <> 0 ->
    is_container (slot data k) = false ->
    (forall i, In i pre -> i + 1 <> partition) ->
    (forall i, In i pre -> is_container (slot data i) = true ->
               bdrv_read bs (start_sector_abs (slot data i)) <> None) ->
    snd (mbr_loop bs partition data (pre ++ k :: post) e)
    = Found (shl9 (start_sector_abs (slot data k)))
            (shl9 (nb_sectors_abs (slot data k))).
Proof.
  induction pre as [| i pre IH]; intros e He Hp Hk Hnb Hc Hpre Hrd;
    cbn [app]; rewrite mbr_loop_cons.
  - rewrite Hc. destruct (Z.eqb_spec (nb_sectors_abs (slot data k)) 0);
      [contradiction |].
    destruct (Z.eqb_spec (k + 1) partition); [reflexivity | lia].
  - assert (IH' : forall e', 4 <= e' ->
              snd (mbr_loop bs partition data (pre ++ k :: post) e')
              = Found (shl9 (start_sector_abs (slot data k)))
                      (shl9 (nb_sectors_abs (slot data k)))).
    { intros e' He'. apply IH; auto; intros; [apply Hpre | apply Hrd];
        try right; assumption. }
    destruct (is_container (slot data i)) eqn:Ci.
    + destruct (bdrv_read bs (start_sector_abs (slot data i)))
        as [data1 |] eqn:R.
      * rewrite ext_loop_none.
        -- specialize (IH' (e + 4) ltac:(lia)).
           destruct (mbr_loop bs partition data (pre ++ k :: post) (e + 4)).
           exact IH'.
        -- intros j Hj. apply in_0123 in Hj. right. lia.
      * exfalso. apply (Hrd i (or_introl eq_refl) Ci). exact R.
    + destruct (Z.eqb_spec (i + 1) partition) as [E | E].
      * exfalso. apply (Hpre i (or_introl eq_refl)). exact E.
      * rewrite andb_false_r. apply IH'. exact He.
Qed.

(** Sub-slot [j] of the container met as number [c] (counted from 0
    among those still to come) carries the number
    [ext_partnum + 4 * c + j + 1]; it is found when it is in use and the
    containers up to this one can be read. *)
Lemma mbr_loop_logical (data data1 : list byte) (j : Z) :
  forall (ivals : list Z) (e : Z) (c : nat) (i : Z),
    (forall i', In i' ivals -> i' + 1 <= e) ->
    nth_error (containers_in data ivals) c = Some i ->
    (forall c' i', (c' < c)%nat ->
       nth_error (containers_in data ivals) c' = Some i' ->
       bdrv_read bs (start_sector_abs (slot data i')) <> None) ->
    bdrv_read bs (start_sector_abs (slot data i)) = Some data1 ->
    0 <= j < 4 ->
    nb_sectors_abs (slot data1 j) <> 0 ->
    partition = e + 4 * Z.of_nat c + j + 1 ->
    snd (mbr_loop bs partition data ivals e)
    = Found (shl9 (start_sector_abs (slot data1 j)))
            (shl9 (nb_sectors_abs (slot data1 j))).
Proof.
  induction ivals as [| i0 ivals IH]; intros e c i Hlt Hc Hrd Hi Hj Hnb Hp.
  { destruct c; discriminate Hc. }
  rewrite mbr_loop_cons. rewrite containers_in_cons in Hc, Hrd.
  assert (Hlt' : forall e', e <= e' ->
            forall i', In i' ivals -> i' + 1 <= e').
  { intros e' He' i' Hi'. specialize (Hlt i' (or_intror Hi')). lia. }
  destruct (is_container (slot data i0)) eqn:Ci.
  - destruct c as [| c].
    + injection Hc as ->. rewrite Hi.
      rewrite (ext_loop_found data1 e j); auto.
      * apply in_0123. exact Hj.
      * lia.
    + destruct (bdrv_read bs (start_sector_abs (slot data i0)))
        as [data0 |] eqn:R.
      * rewrite ext_loop_none.
        -- assert (G : snd (mbr_loop bs partition data ivals (e + 4))
                       = Found (shl9 (start_sector_abs (slot data1 j)))
                               (shl9 (nb_sectors_abs (slot data1 j)))).
           { apply (IH (e + 4) c i); auto.
             - apply Hlt'. lia.
             - intros c' i' Hc' Hn. apply (Hrd (S c') i'); [lia | exact Hn].
             - lia. }
           destruct (mbr_loop bs partition data ivals (e + 4)). exact G.
        -- intros j' Hj'. apply in_0123 in Hj'. right. lia.
      * exfalso. apply (Hrd 0%nat i0); [lia | reflexivity | exact R].
  - destruct (Z.eqb_spec (i0 + 1) partition) as [E | E].
    + specialize (Hlt i0 (or_introl eq_refl)). lia.
    + rewrite andb_false_r. apply (IH e c i); auto. apply Hlt'. lia.
Qed.

(** The loop ends with [-ENOENT], after reading every container, when no
    slot carries the number. *)
Lemma mbr_loop_not_found (data : list byte) :
  forall (ivals : list Z) (e : Z),
    (forall i, In i ivals -> is_container (slot data i) = false ->
               nb_sectors_abs (slot data i) = 0 \/ i + 1 <> partition) ->
    (forall c i, nth_error (containers_in data ivals) c = Some i ->
       exists data1,
         bdrv_read bs (start_sector_abs (slot data i)) = Some data1
         /\ forall j, 0 <= j < 4 ->
              nb_sectors_abs (slot data1 j) = 0
              \/ e + 4 * Z.of_nat c + j + 1 <> partition) ->
    mbr_loop bs partition data ivals e
    = (map (fun i => start_sector_abs (slot data i))
           (containers_in data ivals),
       Failed (- ENOENT)).
Proof.
  induction ivals as [| i0 ivals IH]; intros e Hprim Hlog; [reflexivity |].
  rewrite mbr_loop_cons. rewrite containers_in_cons in Hlog |- *.
  destruct (is_container (slot data i0)) eqn:Ci.
  - destruct (Hlog 0%nat i0 eq_refl) as (data1 & R & Hsub).
    rewrite R, ext_loop_none.
    + rewrite (IH (e + 4)).
      * reflexivity.
      * intros i Hi. apply Hprim. right. exact Hi.
      * intros c i Hc. destruct (Hlog (S c) i Hc) as (d & Rd & Hd).
        exists d. split; [exact Rd |]. intros j Hj.
        destruct (Hd j Hj); [left; assumption | right; lia].
    + intros j Hj. apply in_0123 in Hj.
      destruct (Hsub j Hj); [left; assumption | right; lia].
  - destruct (Hprim i0 (or_introl eq_refl) Ci) as [E | E].
    + rewrite E. cbn [Z.eqb negb andb]. apply IH.
      * intros i Hi. apply Hprim. right. exact Hi.
      * exact Hlog.
    + destruct (Z.eqb_spec (i0 + 1) partition); [contradiction |].
      rewrite andb_false_r. apply IH.
      * intros i Hi. apply Hprim. right. exact Hi.
      * exact Hlog.
Qed.

End Loops.

(** ** find_partition *)

Lemma signature_bytes (data : list byte) :
  length data = 512%nat ->
  skipn 510 data = [nth 510 data Byte.x00; nth 511 data Byte.x00].
Proof.
  intros L.
  assert (L1 : length (firstn 510 data) = 510%nat)
    by (rewrite length_firstn, L; reflexivity).
  assert (L2 : length (skipn 510 data) = 2%nat)
    by (rewrite length_skipn, L; reflexivity).
  rewrite <- (firstn_skipn 510 data) at 2 3.
  destruct (skipn 510 data) as [| a [| b [| ? ?]]]; try discriminate L2.
  rewrite !app_nth2 by (rewrite L1; repeat constructor).
  rewrite L1. reflexivity.
Qed.

(** With 512 bytes in the buffer, the test of the code is the test on the
    two trailing bytes. *)
Lemma bad_signature_false (data : list byte) :
  length data = 512%nat ->
  (bad_signature data = false <-> skipn 510 data = [Byte.x55; Byte.xaa]).
Proof.
  intros L. rewrite (signature_bytes data L).
  unfold bad_signature, idx.
  rewrite orb_false_iff, !negb_false_iff, !Z.eqb_eq.
  change (Z.to_nat 510) with 510%nat. change (Z.to_nat 511) with 511%nat.
  split.
  - intros [A B]. f_equal; [| f_equal]; apply byte.unsigned_inj; assumption.
  - intros E. injection E as -> ->. split; reflexivity.
Qed.

Lemma good_signature (data : list byte) :
  idx data 510 = 0x55 -> idx data 511 = 0xaa -> bad_signature data = false.
Proof. unfold bad_signature. intros -> ->. reflexivity. Qed.

(** Past the signature test, [find_partition] is the outer loop started
    with [ext_partnum = 4], after one read of sector 0. *)
Lemma find_partition_loop (bs : BlockDriverState) (partition : Z)
    (data : list byte) :
  bdrv_read bs 0 = Some data ->
  bad_signature data = false ->
  find_partition bs partition
  = (0 :: fst (mbr_loop bs partition data [0; 1; 2; 3] 4),
     snd (mbr_loop bs partition data [0; 1; 2; 3] 4)).
Proof.
  intros R S. unfold find_partition. rewrite R, S.
  destruct (mbr_loop bs partition data [0; 1; 2; 3] 4). reflexivity.
Qed.

Import Fixtures.

(** C5: when the two trailing bytes of the 512-byte sector 0 are not
    [0x55] followed by [0xAA], [find_partition] returns [-EINVAL] for every
    partition number; sector 0 is the only sector read, and the answer does
    not depend on any other byte of the sector or of the image. *)
Theorem bad_signature_rejected (bs : BlockDriverState) (data : list byte)
    (partition : Z) :
  bdrv_read bs 0 = Some data ->
  length data = 512%nat ->
  skipn 510 data <> [Byte.x55; Byte.xaa] ->
  find_partition bs partition = ([0], Failed (- EINVAL)).
Proof.
  intros R L T. unfold find_partition. rewrite R.
  destruct (bad_signature data) eqn:B; [reflexivity |].
  exfalso. apply T. apply bad_signature_false; assumption.
Qed.

Lemma bad_signature_rejected_witness :
  bdrv_read unsigned_image 0 = Some unsigned_sector0
  /\ length unsigned_sector0 = 512%nat
  /\ skipn 510 unsigned_sector0 <> [Byte.x55; Byte.xaa]
  /\ find_partition unsigned_image 7 = ([0], Failed (- EINVAL)).
Proof.
  assert (T : skipn 510 unsigned_sector0 <> [Byte.x55; Byte.xaa])
    by (vm_compute; discriminate).
  split; [reflexivity |]. split; [reflexivity |]. split; [exact T |].
  exact (bad_signature_rejected unsigned_image unsigned_sector0 7
           eq_refl eq_refl T).
Defined.

(** C2, as the code has it: with a valid signature, a partition number
    [k + 1] in 1..4 whose primary slot is in use and is not of type [0x5]
    or [0xF] is found with offset [start_sector_abs * 512] and size
    [nb_sectors_abs * 512], provided every container in an earlier slot
    can be read (a failed read ends the process). *)
Theorem primary_partition_found (bs : BlockDriverState) (data : list byte)
    (k : Z) :
  bdrv_read bs 0 = Some data ->
  idx data 510 = 0x55 -> idx data 511 = 0xaa ->
  0 <= k < 4 ->
  nb_sectors_abs (slot data k) <> 0 ->
  system (slot data k) <> 0x5 -> system (slot data k) <> 0xF ->
  (forall i, 0 <= i < k -> is_container (slot data i) = true ->
             bdrv_read bs (start_sector_abs (slot data i)) <> None) ->
  snd (find_partition bs (k + 1))
  = Found (start_sector_abs (slot data k) * 512)
          (nb_sectors_abs (slot data k) * 512).
Proof.
  intros R S0 S1 Hk Hnb H5 HF Hrd.
  rewrite (find_partition_loop bs (k + 1) data R (good_signature data S0 S1)).
  cbn [snd].
  rewrite <- (shl9_exact (start_sector_abs (slot data k)))
    by apply start_sector_abs_range.
  rewrite <- (shl9_exact (nb_sectors_abs (slot data k)))
    by apply nb_sectors_abs_range.
  assert (Hc : is_container (slot data k) = false)
    by (apply is_container_false; right; split; assumption).
  assert (Hsplit : exists pre post,
             [0; 1; 2; 3] = pre ++ k :: post
             /\ forall i, In i pre -> 0 <= i < k).
  { assert (k = 0 \/ k = 1 \/ k = 2 \/ k = 3) as [-> | [-> | [-> | ->]]]
      by lia.
    - exists [], [1; 2; 3]. split; [reflexivity | intros i []].
    - exists [0], [2; 3]. split; [reflexivity |]. cbn. intros i. lia.
    - exists [0; 1], [3]. split; [reflexivity |]. cbn. intros i. lia.
    - exists [0; 1; 2], []. split; [reflexivity |]. cbn. intros i. lia. }
  destruct Hsplit as (pre & post & -> & Hpre).
  apply mbr_loop_primary; auto; try lia.
  - intros i Hi. specialize (Hpre i Hi). lia.
Qed.

Lemma primary_partition_found_witness :
  bdrv_read single_image 0 = Some single_sector0
  /\ system (slot single_sector0 0) = 0x83
  /\ start_sector_abs (slot single_sector0 0) = 2048
  /\ nb_sectors_abs (slot single_sector0 0) = 204800
  /\ snd (find_partition single_image 1) = Found 1048576 104857600.
Proof.
  split; [reflexivity |]. split; [reflexivity |].
  split; [reflexivity |]. split; [reflexivity |].
  refine (primary_partition_found single_image single_sector0 0
            eq_refl eq_refl eq_refl _ _ _ _ _).
  - lia.
  - vm_compute. discriminate.
  - vm_compute. discriminate.
  - vm_compute. discriminate.
  - intros i Hi. lia.
Defined.

(** C2 as stated fails: in [truncated_image] partition 2 has a primary
    slot in use, of type [0x83], yet the lookup ends the process, because
    the container named by slot 1 cannot be read. *)
Lemma primary_partition_read_failure :
  bdrv_read truncated_image 0 = Some truncated_sector0
  /\ bad_signature truncated_sector0 = false
  /\ system (slot truncated_sector0 1) = 0x83
  /\ start_sector_abs (slot truncated_sector0 1) = 2048
  /\ nb_sectors_abs (slot truncated_sector0 1) = 204800
  /\ find_partition truncated_image 2 = ([0; 999], Exited EXIT_FAILURE)
  /\ snd (find_partition truncated_image 2)
     <> Found (2048 * 512) (204800 * 512).
Proof. repeat split. vm_compute. discriminate. Qed.

(** C1, as the code has it: numbers are given by position.  With a valid
    signature, sub-slot [j] (0..3) of the container met as number [c]
    (counted from 0 over the primary slots in use of type [0x5] or [0xF],
    in table order) carries the number [4 + 4 * c + j + 1], whatever the
    number of sub-slots in use in the containers before it; when that
    sub-slot is in use, and the containers up to this one can be read, the
    lookup of that number returns its start and length shifted left by 9. *)
Theorem logical_partition_found (bs : BlockDriverState)
    (data data1 : list byte) (c : nat) (i j : Z) :
  bdrv_read bs 0 = Some data ->
  idx data 510 = 0x55 -> idx data 511 = 0xaa ->
  nth_error (containers data) c = Some i ->
  (forall c' i', (c' < c)%nat -> nth_error (containers data) c' = Some i' ->
     bdrv_read bs (start_sector_abs (slot data i')) <> None) ->
  bdrv_read bs (start_sector_abs (slot data i)) = Some data1 ->
  0 <= j < 4 ->
  nb_sectors_abs (slot data1 j) <> 0 ->
  snd (find_partition bs (4 + 4 * Z.of_nat c + j + 1))
  = Found (Z.shiftl (start_sector_abs (slot data1 j)) 9)
          (Z.shiftl (nb_sectors_abs (slot data1 j)) 9).
Proof.
  intros R S0 S1 Hc Hrd R1 Hj Hnb.
  rewrite (find_partition_loop bs _ data R (good_signature data S0 S1)).
  cbn [snd].
  rewrite !Z.shiftl_mul_pow2 by lia. change (2 ^ 9) with 512.
  rewrite <- (shl9_exact (start_sector_abs (slot data1 j)))
    by apply start_sector_abs_range.
  rewrite <- (shl9_exact (nb_sectors_abs (slot data1 j)))
    by apply nb_sectors_abs_range.
  apply (mbr_loop_logical bs _ data data1 j [0; 1; 2; 3] 4 c i); auto.
  intros i' Hi'. apply in_0123 in Hi'. lia.
Qed.

Lemma logical_partition_found_witness :
  containers two_sector0 = [0; 2]
  /\ bdrv_read two_image (start_sector_abs (slot two_sector0 2))
     = Some two_ebr2
  /\ nb_sectors_abs (slot two_ebr2 0) = 7
  /\ snd (find_partition two_image 9) = Found (2001 * 512) (7 * 512).
Proof.
  split; [reflexivity |]. split; [reflexivity |]. split; [reflexivity |].
  refine (logical_partition_found two_image two_sector0 two_ebr2 1 2 0
            eq_refl eq_refl eq_refl eq_refl _ eq_refl _ _).
  - intros [| c'] i' Hc' E; [| exfalso; lia].
    injection E as <-. vm_compute. discriminate.
  - lia.
  - vm_compute. discriminate.
Defined.

(** C1 as stated fails: in [gap_image] the first sub-slot in use of the
    first container is sub-slot 1, yet number 5 finds nothing; that
    sub-slot is found under number 6. *)
Lemma logical_numbering_is_positional :
  bad_signature gap_sector0 = false
  /\ containers gap_sector0 = [0]
  /\ bdrv_read gap_image (start_sector_abs (slot gap_sector0 0))
     = Some gap_ebr
  /\ first_populated gap_ebr = Some 1
  /\ start_sector_abs (slot gap_ebr 1) = 3000
  /\ nb_sectors_abs (slot gap_ebr 1) = 500
  /\ find_partition gap_image 5 = ([0; 999], Failed (- ENOENT))
  /\ find_partition gap_image 6
     = ([0; 999], Found (Z.shiftl 3000 9) (Z.shiftl 500 9)).
Proof. repeat split. Qed.

(** C6, as the code has it: with a valid signature, when every container
    can be read and the number is carried by no primary slot in use that is
    no container and by no sub-slot in use of a container, the lookup
    returns [-ENOENT], after reading sector 0 and the sector of every
    container, in table order. *)
Theorem unmatched_partition_not_found (bs : BlockDriverState)
    (data : list byte) (partition : Z) :
  bdrv_read bs 0 = Some data ->
  idx data 510 = 0x55 -> idx data 511 = 0xaa ->
  (forall i, In i (containers data) ->
     bdrv_read bs (start_sector_abs (slot data i)) <> None) ->
  (forall i, 0 <= i < 4 -> i + 1 = partition ->
     nb_sectors_abs (slot data i) = 0 \/ is_container (slot data i) = true) ->
  (forall c i data1 j,
     nth_error (containers data) c = Some i ->
     bdrv_read bs (start_sector_abs (slot data i)) = Some data1 ->
     0 <= j < 4 -> 4 + 4 * Z.of_nat c + j + 1 = partition ->
     nb_sectors_abs (slot data1 j) = 0) ->
  find_partition bs partition
  = (0 :: map (fun i => start_sector_abs (slot data i)) (containers data),
     Failed (- ENOENT)).
Proof.
  intros R S0 S1 Hrd Hprim Hlog.
  rewrite (find_partition_loop bs _ data R (good_signature data S0 S1)).
  rewrite (mbr_loop_not_found bs partition data [0; 1; 2; 3] 4).
  - reflexivity.
  - intros i Hi Ci. apply in_0123 in Hi.
    destruct (Z.eq_dec (i + 1) partition) as [E | E]; [| right; exact E].
    destruct (Hprim i Hi E) as [Z0 | C1]; [left; exact Z0 | congruence].
  - intros c i Hc.
    destruct (bdrv_read bs (start_sector_abs (slot data i)))
      as [data1 |] eqn:R1.
    + exists data1. split; [reflexivity |]. intros j Hj.
      destruct (Z.eq_dec (4 + 4 * Z.of_nat c + j + 1) partition) as [E | E];
        [left | right; exact E].
      apply (Hlog c i data1 j); assumption.
    + exfalso. apply (Hrd i); [| exact R1].
      apply (nth_error_In _ _ Hc).
Qed.

Lemma unmatched_partition_not_found_witness :
  containers two_sector0 = [0; 2]
  /\ nb_sectors_abs (slot two_ebr1 1) = 0
  /\ find_partition two_image 6 = ([0; 1000; 2000], Failed (- ENOENT)).
Proof.
  split; [reflexivity |]. split; [reflexivity |].
  refine (unmatched_partition_not_found two_image two_sector0 6
            eq_refl eq_refl eq_refl _ _ _).
  - intros i [<- | [<- | []]]; vm_compute; discriminate.
  - intros i Hi E. exfalso. lia.
  - intros [| c] i data1 j Hc R1 Hj E.
    + assert (j = 1) as -> by lia.
      injection Hc as <-. vm_compute in R1. injection R1 as <-.
      reflexivity.
    + exfalso. lia.
Defined.

(** C6 as stated fails: in [truncated_image] the signature is valid and the
    primary slot of number 3 is empty, yet the lookup does not return
    [-ENOENT]: it ends the process on the container it cannot read. *)
Lemma unmatched_partition_read_failure :
  bdrv_read truncated_image 0 = Some truncated_sector0
  /\ bad_signature truncated_sector0 = false
  /\ nb_sectors_abs (slot truncated_sector0 2) = 0
  /\ containers truncated_sector0 = [0]
  /\ bdrv_read truncated_image (start_sector_abs (slot truncated_sector0 0))
     = None
  /\ find_partition truncated_image 3 = ([0; 999], Exited EXIT_FAILURE)
  /\ snd (find_partition truncated_image 3) <> Failed (- ENOENT).
Proof. repeat split. vm_compute. discriminate. Qed.

(** ** What the loops read and find *)

Section LoopFacts.

Variable bs : BlockDriverState.
Variable partition : Z.
Variable data : list byte.

Let starts (ivals : list Z) : list Z :=
  map (fun i => start_sector_abs (slot data i)) (containers_in data ivals).

(** The sectors the loop reads are the starts of the containers, in table
    order, up to the one where it stops. *)
Lemma mbr_loop_reads_prefix :
  forall (ivals : list Z) (e : Z),
    exists k, fst (mbr_loop bs partition data ivals e)
              = firstn k (starts ivals).
Proof.
  induction ivals as [| i ivals IH]; intros e.
  { exists 0%nat. reflexivity. }
  rewrite mbr_loop_cons. unfold starts. rewrite containers_in_cons.
  destruct (is_container (slot data i)) eqn:Ci.
  - cbn [map].
    destruct (bdrv_read bs (start_sector_abs (slot data i))) as [data1 |];
      [| exists 1%nat; reflexivity].
    destruct (ext_loop partition e data1 [0; 1; 2; 3]) as [[o s] |];
      [exists 1%nat; reflexivity |].
    destruct (IH (e + 4)) as [k Hk].
    destruct (mbr_loop bs partition data ivals (e + 4)) as [t r].
    exists (S k). cbn [fst firstn] in *. rewrite Hk. reflexivity.
  - destruct (negb (nb_sectors_abs (slot data i) =? 0)
              && (i + 1 =? partition)).
    + exists 0%nat. reflexivity.
    + apply IH.
Qed.

(** The loop ends the process exactly when a read it made failed; it then
    does so with [EXIT_FAILURE]. *)
Lemma mbr_loop_exited :
  forall (ivals : list Z) (e : Z),
    (forall status,
        snd (mbr_loop bs partition data ivals e) = Exited status ->
        status = EXIT_FAILURE)
    /\ ((exists status,
            snd (mbr_loop bs partition data ivals e) = Exited status)
        <-> exists n, In n (fst (mbr_loop bs partition data ivals e))
                      /\ bdrv_read bs n = None).
Proof.
  induction ivals as [| i ivals IH]; intros e.
  { cbn. split; [discriminate |].
    split; [intros [? H]; discriminate H | intros [? [[] _]]]. }
  rewrite mbr_loop_cons.
  destruct (is_container (slot data i)) eqn:Ci.
  - destruct (bdrv_read bs (start_sector_abs (slot data i)))
      as [data1 |] eqn:R.
    + destruct (ext_loop partition e data1 [0; 1; 2; 3]) as [[o s] |].
      * cbn [fst snd In]. split; [discriminate |].
        split; [intros [? H]; discriminate H |].
        intros [n [[<- | []] Hn]]. congruence.
      * destruct (IH (e + 4)) as [A B].
        destruct (mbr_loop bs partition data ivals (e + 4)) as [t r].
        cbn [fst snd] in *. split; [exact A |].
        rewrite B. split.
        -- intros [n [Hin Hn]]. exists n. split; [right |]; assumption.
        -- intros [n [[<- | Hin] Hn]]; [congruence |].
           exists n. split; assumption.
    + cbn [fst snd In].
      split; [intros status H; injection H as <-; reflexivity |].
      split.
      * intros _. exists (start_sector_abs (slot data i)).
        split; [left; reflexivity | exact R].
      * intros _. eexists. reflexivity.
  - destruct (negb (nb_sectors_abs (slot data i) =? 0)
              && (i + 1 =? partition)).
    + cbn [fst snd In]. split; [discriminate |].
      split; [intros [? H]; discriminate H | intros [? [[] _]]].
    + apply IH.
Qed.

(** The only error the loop returns is [-ENOENT]. *)
Lemma mbr_loop_failed :
  forall (ivals : list Z) (e : Z) (ret : Z),
    snd (mbr_loop bs partition data ivals e) = Failed ret ->
    ret = - ENOENT.
Proof.
  induction ivals as [| i ivals IH]; intros e ret.
  { cbn. intros H. injection H as <-. reflexivity. }
  rewrite mbr_loop_cons.
  destruct (is_container (slot data i)).
  - destruct (bdrv_read bs (start_sector_abs (slot data i))) as [data1 |];
      [| discriminate].
    destruct (ext_loop partition e data1 [0; 1; 2; 3]) as [[o s] |];
      [discriminate |].
    specialize (IH (e + 4) ret).
    destruct (mbr_loop bs partition data ivals (e + 4)). exact IH.
  - destruct (negb (nb_sectors_abs (slot data i) =? 0)
              && (i + 1 =? partition)); [discriminate | apply IH].
Qed.

(** What the loop finds carries the requested number: a primary slot in
    use that is no container, under its index plus one, or a sub-slot in
    use of a container, under its positional number. *)
Lemma mbr_loop_found_cases :
  forall (ivals : list Z) (e : Z) (o s : Z),
    snd (mbr_loop bs partition data ivals e) = Found o s ->
    (exists i, In i ivals /\ i + 1 = partition
               /\ nb_sectors_abs (slot data i) <> 0
               /\ is_container (slot data i) = false
               /\ o = shl9 (start_sector_abs (slot data i))
               /\ s = shl9 (nb_sectors_abs (slot data i)))
    \/ (exists (c : nat) i data1 j,
           nth_error (containers_in data ivals) c = Some i
           /\ bdrv_read bs (start_sector_abs (slot data i)) = Some data1
           /\ 0 <= j < 4
           /\ nb_sectors_abs (slot data1 j) <> 0
           /\ partition = e + 4 * Z.of_nat c + j + 1
           /\ o = shl9 (start_sector_abs (slot data1 j))
           /\ s = shl9 (nb_sectors_abs (slot data1 j))).
Proof.
  induction ivals as [| i ivals IH]; intros e o s.
  { cbn. discriminate. }
  rewrite mbr_loop_cons, containers_in_cons.
  destruct (is_container (slot data i)) eqn:Ci.
  - destruct (bdrv_read bs (start_sector_abs (slot data i)))
      as [data1 |] eqn:R; [| discriminate].
    destruct (ext_loop partition e data1 [0; 1; 2; 3]) as [[o' s'] |] eqn:X.
    + cbn [snd]. intros H. injection H as <- <-.
      apply ext_loop_some_inv in X.
      destruct X as (j & Hj & Hnb & He & Ho & Hs).
      right. exists 0%nat, i, data1, j.
      apply in_0123 in Hj.
      split; [reflexivity |]. split; [exact R |]. split; [exact Hj |].
      split; [exact Hnb |]. split; [lia |]. split; assumption.
    + specialize (IH (e + 4) o s).
      destruct (mbr_loop bs partition data ivals (e + 4)) as [t r].
      cbn [snd] in *. intros H.
      destruct (IH H) as [(i' & Hi' & P) | (c & i' & d & j & Hc & P)].
      * left. exists i'. split; [right |]; assumption.
      * right. exists (S c), i', d, j. split; [exact Hc |].
        destruct P as (Rd & Hj & Hnb & Hp & Ho & Hs).
        split; [exact Rd |]. split; [exact Hj |]. split; [exact Hnb |].
        split; [lia |]. split; assumption.
  - destruct (Z.eqb_spec (nb_sectors_abs (slot data i)) 0) as [E | E];
      cbn [negb andb].
    + intros H. destruct (IH e o s H)
        as [(i' & Hi' & P) | (c & i' & d & j & P)].
      * left. exists i'. split; [right |]; assumption.
      * right. exists c, i', d, j. exact P.
    + destruct (Z.eqb_spec (i + 1) partition) as [E1 | E1].
      * cbn [snd]. intros H. injection H as <- <-.
        left. exists i. split; [left; reflexivity |].
        split; [exact E1 |]. split; [exact E |]. split; [exact Ci |].
        split; reflexivity.
      * intros H. destruct (IH e o s H)
          as [(i' & Hi' & P) | (c & i' & d & j & P)].
        -- left. exists i'. split; [right |]; assumption.
        -- right. exists c, i', d, j. exact P.
Qed.

End LoopFacts.

Lemma containers_at_most_4 (data : list byte) :
  (length (containers data) <= 4)%nat.
Proof.
  unfold containers, containers_in.
  apply (filter_length_le _ [0; 1; 2; 3]).
Qed.

Lemma find_partition_found_cases (bs : BlockDriverState) (partition : Z)
    (reads : list Z) (o s : Z) :
  find_partition bs partition = (reads, Found o s) ->
  exists data,
    bdrv_read bs 0 = Some data /\ bad_signature data = false
    /\ ((exists i, 0 <= i < 4 /\ i + 1 = partition
                   /\ nb_sectors_abs (slot data i) <> 0
                   /\ is_container (slot data i) = false
                   /\ o = shl9 (start_sector_abs (slot data i))
                   /\ s = shl9 (nb_sectors_abs (slot data i)))
        \/ (exists (c : nat) i data1 j,
               nth_error (containers data) c = Some i
               /\ bdrv_read bs (start_sector_abs (slot data i)) = Some data1
               /\ 0 <= j < 4
               /\ nb_sectors_abs (slot data1 j) <> 0
               /\ partition = 4 + 4 * Z.of_nat c + j + 1
               /\ o = shl9 (start_sector_abs (slot data1 j))
               /\ s = shl9 (nb_sectors_abs (slot data1 j)))).
Proof.
  unfold find_partition.
  destruct (bdrv_read bs 0) as [data |] eqn:R0; [| discriminate].
  destruct (bad_signature data) eqn:B; [discriminate |].
  pose proof (mbr_loop_found_cases bs partition data [0; 1; 2; 3] 4 o s) as C.
  destruct (mbr_loop bs partition data [0; 1; 2; 3] 4) as [t r].
  intros H. injection H as _ ->.
  exists data. split; [reflexivity |]. split; [exact B |].
  destruct (C eq_refl) as [(i & Hi & P) | Q].
  - left. exists i. apply in_0123 in Hi. split; assumption.
  - right. exact Q.
Qed.

(** C10: whenever the lookup succeeds, the slot it has matched is the one
    that carries the number (primary slot [i] for [i + 1], sub-slot [j] of
    the [c]-th container for [4 + 4 * c + j + 1]), and the offset and the
    size it returns are the start and the length of that very slot
    multiplied by 512 without any loss: both lie below [2^41], and a
    start of [2^32 - 1] gives the offset [(2^32 - 1) * 512], which is
    above [2^32]. *)
Theorem found_range_is_exact (bs : BlockDriverState) (partition : Z)
    (reads : list Z) (offset size : Z) :
  find_partition bs partition = (reads, Found offset size) ->
  (exists data,
      bdrv_read bs 0 = Some data
      /\ ((exists i, 0 <= i < 4 /\ i + 1 = partition
                     /\ nb_sectors_abs (slot data i) <> 0
                     /\ offset = start_sector_abs (slot data i) * 512
                     /\ size = nb_sectors_abs (slot data i) * 512)
          \/ (exists (c : nat) i data1 j,
                 nth_error (containers data) c = Some i
                 /\ bdrv_read bs (start_sector_abs (slot data i))
                    = Some data1
                 /\ 0 <= j < 4
                 /\ 4 + 4 * Z.of_nat c + j + 1 = partition
                 /\ nb_sectors_abs (slot data1 j) <> 0
                 /\ offset = start_sector_abs (slot data1 j) * 512
                 /\ size = nb_sectors_abs (slot data1 j) * 512)))
  /\ 0 <= offset <= (2 ^ 32 - 1) * 512
  /\ 0 < size <= (2 ^ 32 - 1) * 512
  /\ shl9 (2 ^ 32 - 1) = (2 ^ 32 - 1) * 512.
Proof.
  intros H. apply find_partition_found_cases in H.
  destruct H as (data & R & _ & C).
  assert (B : forall d k,
             0 <= start_sector_abs (slot d k) < 2 ^ 32
             /\ 0 <= nb_sectors_abs (slot d k) < 2 ^ 32).
  { intros d k. split;
      [apply start_sector_abs_range | apply nb_sectors_abs_range]. }
  destruct C as [(i & Hi & Hp & Hnb & _ & -> & ->)
                | (c & i & d & j & Hc & Rd & Hj & Hnb & Hp & -> & ->)].
  - destruct (B data i) as [B1 B2].
    rewrite !shl9_exact by (assumption || lia).
    split; [| lia].
    exists data. split; [exact R |]. left. exists i. auto 10.
  - destruct (B d j) as [B1 B2].
    rewrite !shl9_exact by (assumption || lia).
    split; [| lia].
    exists data. split; [exact R |]. right. exists c, i, d, j.
    split; [exact Hc |]. split; [exact Rd |]. split; [exact Hj |].
    split; [symmetry; exact Hp |]. auto.
Qed.

Lemma found_range_is_exact_witness :
  start_sector_abs (slot two_sector0 3) = 2 ^ 32 - 1
  /\ start_sector_abs (slot two_ebr2 1) = 2010
  /\ find_partition two_image 4
     = ([0; 1000; 2000], Found 2199023255040 2199023255040)
  /\ find_partition two_image 10
     = ([0; 1000; 2000], Found (2010 * 512) (9 * 512))
  /\ 0 <= 2199023255040 <= (2 ^ 32 - 1) * 512
  /\ 2199023255040 = (2 ^ 32 - 1) * 512
  /\ 0 < 9 * 512 <= (2 ^ 32 - 1) * 512.
Proof.
  split; [reflexivity |]. split; [reflexivity |].
  assert (E4 : find_partition two_image 4
               = ([0; 1000; 2000], Found 2199023255040 2199023255040))
    by reflexivity.
  assert (E10 : find_partition two_image 10
                = ([0; 1000; 2000], Found (2010 * 512) (9 * 512)))
    by reflexivity.
  split; [exact E4 |]. split; [exact E10 |].
  destruct (found_range_is_exact two_image 4 _ _ _ E4) as (_ & B & _ & _).
  destruct (found_range_is_exact two_image 10 _ _ _ E10)
    as (_ & _ & B' & _).
  split; [exact B |]. split; [reflexivity | exact B'].
Defined.

(** C9 (the code departs from it): for every 16-byte slot the two sector
    fields are the low six bits of their byte (0..63) and [start_cylinder]
    is the ten-bit value made of the low byte and of the top two bits of
    the sector byte (0..1023); [end_cylinder], stored in a [uint8_t], is
    the low byte alone.  In [chs_slot], whose end bytes are [0xc1 0x02],
    the same bytes decode to 770 at the start and to 2 at the end. *)
Theorem end_cylinder_is_truncated :
  (forall p : list byte,
      start_sector (read_partition p) = idx p 2 mod 64
      /\ end_sector (read_partition p) = idx p 6 mod 64
      /\ 0 <= start_sector (read_partition p) <= 63
      /\ 0 <= end_sector (read_partition p) <= 63
      /\ start_cylinder (read_partition p) = idx p 3 + 256 * (idx p 2 / 64)
      /\ 0 <= start_cylinder (read_partition p) <= 1023
      /\ end_cylinder (read_partition p) = idx p 7
      /\ 0 <= end_cylinder (read_partition p) <= 255)
  /\ idx chs_slot 2 = idx chs_slot 6
  /\ idx chs_slot 3 = idx chs_slot 7
  /\ start_cylinder (read_partition chs_slot) = 770
  /\ end_cylinder (read_partition chs_slot) = 2
  /\ end_cylinder (read_partition chs_slot)
     <> idx chs_slot 7 + 256 * (idx chs_slot 6 / 64).
Proof.
  split.
  - intros p.
    rewrite start_sector_spec, end_sector_spec, start_cylinder_spec,
      end_cylinder_spec.
    pose proof (Z.mod_pos_bound (idx p 2) 64).
    pose proof (Z.mod_pos_bound (idx p 6) 64).
    pose proof (cylinder_expr_range p 3 2).
    pose proof (idx_range p 7).
    repeat split; lia.
  - repeat split. vm_compute. discriminate.
Qed.

(** ** Client admission *)

Lemma can_accept_iff (st : server) :
  nbd_can_accept st = true <-> nb_fds st < shared st.
Proof. unfold nbd_can_accept. apply Z.ltb_lt. Qed.

Lemma can_accept_false_iff (st : server) :
  nbd_can_accept st = false <-> shared st <= nb_fds st.
Proof. unfold nbd_can_accept. apply Z.ltb_ge. Qed.

Lemma main_loop_wait_cons (e : event) (events : list event) (st : server) :
  main_loop_wait (e :: events) st = main_loop_wait events (dispatch st e).
Proof. reflexivity. Qed.

(** No handler writes [shared]. *)
Lemma dispatch_shared (st : server) (e : event) :
  shared (dispatch st e) = shared st.
Proof.
  destruct e as [fd client | |]; cbn; try reflexivity.
  destruct (nbd_can_accept st); [| reflexivity].
  unfold nbd_accept. destruct ((0 <=? fd) && client); reflexivity.
Qed.

(** Only the signal handler writes [sigterm_reported], and it sets it. *)
Lemma dispatch_sigterm (st : server) (e : event) :
  sigterm_reported (dispatch st e)
  = match e with Sigterm => true | _ => sigterm_reported st end.
Proof.
  destruct e as [fd client | |]; cbn; try reflexivity.
  destruct (nbd_can_accept st); [| reflexivity].
  unfold nbd_accept. destruct ((0 <=? fd) && client); reflexivity.
Qed.

(** An accepted and registered connection, while the guard lets it in,
    counts for one. *)
Lemma dispatch_accepted (st : server) (fd : Z) :
  0 <= fd -> 0 <= nb_fds st < shared st -> shared st <= INT_MAX ->
  nb_fds (dispatch st (Readable fd true)) = nb_fds st + 1.
Proof.
  intros Hfd Hn Hs. cbn [dispatch].
  rewrite (proj2 (can_accept_iff st)) by lia.
  unfold nbd_accept. rewrite (proj2 (Z.leb_le 0 fd) Hfd). cbn.
  apply to_int_small. unfold INT_MIN, INT_MAX in *. lia.
Qed.

(** While the guard answers false, readiness and signals leave the count
    alone. *)
Lemma dispatch_saturated (st : server) (e : event) :
  e <> Closed -> shared st <= nb_fds st ->
  nb_fds (dispatch st e) = nb_fds st.
Proof.
  intros He Hs. destruct e as [fd client | |]; cbn; try congruence.
  rewrite (proj2 (can_accept_false_iff st) Hs). reflexivity.
Qed.

(** [k] accepted connections in a row, with room for them under the limit,
    raise the count by [k]. *)
Lemma accepts_fill (fds : list Z) :
  forall st : server,
    Forall (fun fd => 0 <= fd) fds ->
    0 <= nb_fds st ->
    nb_fds st + Z.of_nat (length fds) <= shared st ->
    shared st <= INT_MAX ->
    let st' := main_loop_wait (map (fun fd => Readable fd true) fds) st in
    nb_fds st' = nb_fds st + Z.of_nat (length fds)
    /\ shared st' = shared st.
Proof.
  induction fds as [| fd fds IH]; intros st Hfds Hn Hroom Hs.
  { cbn. split; [lia | reflexivity]. }
  cbn [map]. cbn zeta. rewrite main_loop_wait_cons.
  inversion Hfds as [| ? ? Hfd Hfds']; subst.
  cbn [length] in Hroom. rewrite Nat2Z.inj_succ in Hroom.
  pose proof (dispatch_accepted st fd Hfd ltac:(lia) Hs) as A.
  pose proof (dispatch_shared st (Readable fd true)) as B.
  destruct (IH (dispatch st (Readable fd true)) Hfds') as [C D];
    try lia.
  cbn zeta in C, D. rewrite C, D, A, B.
  cbn [length]. rewrite Nat2Z.inj_succ. split; [lia | reflexivity].
Qed.

Lemma saturated_stays (events : list event) :
  forall st : server,
    ~ In Closed events ->
    shared st <= nb_fds st ->
    nb_fds (main_loop_wait events st) = nb_fds st
    /\ shared (main_loop_wait events st) = shared st.
Proof.
  induction events as [| e events IH]; intros st Hnc Hs.
  { split; reflexivity. }
  rewrite main_loop_wait_cons.
  assert (He : e <> Closed) by (intros ->; apply Hnc; left; reflexivity).
  pose proof (dispatch_saturated st e He Hs) as A.
  pose proof (dispatch_shared st e) as B.
  destruct (IH (dispatch st e)) as [C D].
  - intros Hin. apply Hnc. right. exact Hin.
  - lia.
  - rewrite C, D, A, B. split; reflexivity.
Qed.

(** C7: [nbd_can_accept] answers true exactly when [nb_fds < shared], on
    the state as it is when asked.  After [N = shared] accepted connections
    and no close it answers false and a readiness event accepts nothing;
    this lasts through any events without a close; one close makes it
    answer true again. *)
Theorem admission_limit (N : Z) (fds : list Z) :
  1 <= N <= INT_MAX ->
  Z.of_nat (length fds) = N ->
  Forall (fun fd => 0 <= fd) fds ->
  let st := main_loop_wait (map (fun fd => Readable fd true) fds)
                           (initial N) in
  (forall s, nbd_can_accept s = true <-> nb_fds s < shared s)
  /\ nb_fds st = N
  /\ nbd_can_accept st = false
  /\ (forall fd client, dispatch st (Readable fd client) = st)
  /\ (forall events, ~ In Closed events ->
        nbd_can_accept (main_loop_wait events st) = false)
  /\ nb_fds (nbd_client_closed st) = N - 1
  /\ nbd_can_accept (nbd_client_closed st) = true.
Proof.
  intros HN Hlen Hfds st.
  destruct (accepts_fill fds (initial N) Hfds) as [A B];
    [cbn; lia | cbn; lia | exact (proj2 HN) |].
  fold st in A, B. cbn in A, B. rewrite Hlen in A.
  assert (Sat : nbd_can_accept st = false)
    by (apply can_accept_false_iff; lia).
  assert (Dec : nb_fds (nbd_client_closed st) = N - 1).
  { cbn. rewrite A. apply to_int_small. unfold INT_MIN, INT_MAX in *. lia. }
  split; [exact can_accept_iff |].
  split; [exact A |].
  split; [exact Sat |].
  split; [intros fd client; cbn; rewrite Sat; reflexivity |].
  split.
  - intros events Hnc. apply can_accept_false_iff.
    destruct (saturated_stays events st Hnc) as [C D]; lia.
  - split; [exact Dec |].
    apply can_accept_iff. rewrite Dec. cbn. lia.
Qed.

Lemma admission_limit_witness :
  let st := main_loop_wait [Readable 7 true; Readable 8 true] (initial 2) in
  nb_fds st = 2
  /\ nbd_can_accept st = false
  /\ nbd_can_accept (nbd_client_closed st) = true.
Proof.
  assert (H2 : 1 <= 2 <= INT_MAX) by (unfold INT_MAX; lia).
  assert (F : Forall (fun fd => 0 <= fd) [7; 8])
    by (repeat constructor; lia).
  destruct (admission_limit 2 [7; 8] H2 eq_refl F)
    as (_ & A & B & _ & _ & _ & C).
  exact (conj A (conj B C)).
Defined.

(** C3, as the code has it: [nbd_client_closed] takes one off [nb_fds]
    whatever its value and touches nothing else, so [0 <= nb_fds] holds
    after a close exactly when a client was counted before it; the two
    other handlers keep [0 <= nb_fds]. *)
Theorem client_closed_decrements (st : server) :
  INT_MIN < nb_fds st <= INT_MAX ->
  nb_fds (nbd_client_closed st) = nb_fds st - 1
  /\ shared (nbd_client_closed st) = shared st
  /\ nbd_started (nbd_client_closed st) = nbd_started st
  /\ sigterm_reported (nbd_client_closed st) = sigterm_reported st
  /\ (0 <= nb_fds (nbd_client_closed st) <-> 1 <= nb_fds st)
  /\ (forall e, e <> Closed -> 0 <= nb_fds st -> shared st <= INT_MAX ->
        0 <= nb_fds (dispatch st e)).
Proof.
  intros H.
  assert (D : nb_fds (nbd_client_closed st) = nb_fds st - 1).
  { cbn. apply to_int_small. unfold INT_MIN, INT_MAX in *. lia. }
  repeat (split; [first [exact D | reflexivity] |]).
  split; [rewrite D; lia |].
  intros e He Hn Hs.
  destruct (Z.lt_ge_cases (nb_fds st) (shared st)) as [L | L].
  - destruct e as [fd client | |]; cbn; try congruence; try assumption.
    rewrite (proj2 (can_accept_iff st) L).
    unfold nbd_accept. destruct ((0 <=? fd) && client); cbn;
      [| assumption].
    rewrite to_int_small; unfold INT_MIN, INT_MAX in *; lia.
  - rewrite dispatch_saturated; assumption.
Qed.

Lemma client_closed_decrements_witness :
  nb_fds (nbd_client_closed (nbd_accept 3 true (initial 1))) = 0
  /\ 0 <= nb_fds (dispatch (initial 1) (Readable 3 true)).
Proof.
  assert (R : INT_MIN < nb_fds (nbd_accept 3 true (initial 1)) <= INT_MAX)
    by (vm_compute; split; [reflexivity | discriminate]).
  assert (R0 : INT_MIN < nb_fds (initial 1) <= INT_MAX)
    by (vm_compute; split; [reflexivity | discriminate]).
  split.
  - exact (proj1 (client_closed_decrements _ R)).
  - refine (proj2 (proj2 (proj2 (proj2 (proj2
              (client_closed_decrements (initial 1) R0)))))
              (Readable 3 true) _ _ _).
    + discriminate.
    + cbn. lia.
    + vm_compute. discriminate.
Defined.

(** C3 as stated fails: a close when no client is counted leaves
    [nb_fds = -1]; nothing holds the counter at 0. *)
Lemma stray_close_goes_negative :
  nb_fds (initial 1) = 0
  /\ nb_fds (nbd_client_closed (initial 1)) = -1
  /\ ~ 0 <= nb_fds (nbd_client_closed (initial 1))
  /\ nb_fds (main_loop_wait [Readable 3 true; Closed; Closed] (initial 1))
     = -1.
Proof.
  split; [reflexivity |]. split; [reflexivity |].
  split; [| reflexivity]. vm_compute. intros H. apply H. reflexivity.
Qed.

(** C8, as the code has it: [nbd_accept] sets [nbd_started] on every run,
    whether or not [accept] gave a connection; [nb_fds] goes up by one
    exactly when [accept] succeeded and the client was registered, and is
    left alone otherwise; nothing else changes.  After a failed accept with
    no client counted, the loop condition without [-t] is false. *)
Theorem accept_bookkeeping (fd : Z) (client : bool) (st : server) :
  nbd_started (nbd_accept fd client st) = true
  /\ shared (nbd_accept fd client st) = shared st
  /\ sigterm_reported (nbd_accept fd client st) = sigterm_reported st
  /\ (fd < 0 \/ client = false ->
        nb_fds (nbd_accept fd client st) = nb_fds st)
  /\ (0 <= fd -> client = true -> INT_MIN <= nb_fds st < INT_MAX ->
        nb_fds (nbd_accept fd client st) = nb_fds st + 1)
  /\ (fd < 0 -> nb_fds st <= 0 ->
        loop_condition false (nbd_accept fd client st) = false).
Proof.
  unfold nbd_accept.
  destruct (Z.leb_spec 0 fd) as [P | P]; destruct client; cbn [andb];
    (split; [reflexivity |]); (split; [reflexivity |]);
    (split; [reflexivity |]); (split; [| split]); intros;
    try match goal with H : _ \/ _ |- _ => destruct H end;
    try reflexivity; try discriminate; try (exfalso; lia).
  - cbn. apply to_int_small. unfold INT_MIN, INT_MAX in *. lia.
  - unfold loop_condition.
    cbn [set_nbd_started nbd_started nb_fds sigterm_reported negb orb].
    rewrite (proj2 (Z.ltb_ge 0 (nb_fds st))) by assumption.
    apply andb_false_r.
  - unfold loop_condition.
    cbn [set_nbd_started nbd_started nb_fds sigterm_reported negb orb].
    rewrite (proj2 (Z.ltb_ge 0 (nb_fds st))) by assumption.
    apply andb_false_r.
Qed.

Lemma accept_bookkeeping_witness :
  nb_fds (nbd_accept 3 true (initial 1)) = 1
  /\ nb_fds (nbd_accept (-1) true (initial 1)) = 0
  /\ loop_condition false (nbd_accept (-1) true (initial 1)) = false.
Proof.
  destruct (accept_bookkeeping 3 true (initial 1))
    as (_ & _ & _ & _ & A & _).
  destruct (accept_bookkeeping (-1) true (initial 1))
    as (_ & _ & _ & B & _ & C).
  split; [| split].
  - apply A; [lia | reflexivity |].
    vm_compute. split; [discriminate | reflexivity].
  - apply B. left. lia.
  - apply C; [lia | cbn; lia].
Defined.

(** C8 as stated fails: a failed accept on the fresh server sets
    [nbd_started], and the server started without [-t] then leaves its
    loop. *)
Lemma failed_accept_marks_started :
  nbd_started (initial 1) = false
  /\ nbd_started (nbd_accept (-1) false (initial 1)) = true
  /\ nbd_accept (-1) false (initial 1) <> initial 1
  /\ nb_fds (nbd_accept (-1) false (initial 1)) = 0
  /\ main_loop false [[Readable (-1) false]] (initial 1)
     = Some (set_nbd_started true (initial 1)).
Proof.
  split; [reflexivity |]. split; [reflexivity |].
  split; [| split; reflexivity].
  vm_compute. discriminate.
Qed.

(** ** The server loop *)

Lemma loop_condition_true (persistent : bool) (st : server) :
  loop_condition persistent st = true <->
  sigterm_reported st = false
  /\ (persistent = true \/ nbd_started st = false \/ 0 < nb_fds st).
Proof.
  unfold loop_condition.
  rewrite andb_true_iff, !orb_true_iff, !negb_true_iff, Z.ltb_lt.
  tauto.
Qed.

Lemma main_loop_cons (persistent : bool) (events : list event)
    (rest : list (list event)) (st : server) :
  main_loop persistent (events :: rest) st
  = if loop_condition persistent (main_loop_wait events st)
    then main_loop persistent rest (main_loop_wait events st)
    else Some (main_loop_wait events st).
Proof. reflexivity. Qed.

(** Once set, [sigterm_reported] stays set. *)
Lemma sigterm_sticky (events : list event) :
  forall st, sigterm_reported st = true ->
             sigterm_reported (main_loop_wait events st) = true.
Proof.
  induction events as [| e events IH]; intros st H; [exact H |].
  rewrite main_loop_wait_cons. apply IH. rewrite dispatch_sigterm.
  destruct e; auto.
Qed.

Lemma sigterm_delivered (events : list event) :
  forall st, In Sigterm events ->
             sigterm_reported (main_loop_wait events st) = true.
Proof.
  induction events as [| e events IH]; intros st H; [destruct H |].
  rewrite main_loop_wait_cons. destruct H as [-> | H].
  - apply sigterm_sticky. reflexivity.
  - apply IH. exact H.
Qed.

Lemma sigterm_absent (events : list event) :
  forall st, ~ In Sigterm events ->
             sigterm_reported (main_loop_wait events st)
             = sigterm_reported st.
Proof.
  induction events as [| e events IH]; intros st H; [reflexivity |].
  rewrite main_loop_wait_cons, IH, dispatch_sigterm.
  - destruct e; try reflexivity. exfalso. apply H. left. reflexivity.
  - intros Hin. apply H. right. exact Hin.
Qed.

(** C4: the loop goes round again exactly while [sigterm_reported] is
    unset and one of [persistent], "nothing accepted yet" and
    [nb_fds > 0] holds.  Without [-t] it is left at the first turn after
    which [nbd_started] is set and [nb_fds] is 0, signal or not; with [-t]
    it is left only with [sigterm_reported] set, runs on as long as no
    signal comes, and is left at the turn in which the signal comes. *)
Theorem loop_exit_condition :
  (forall persistent st,
      loop_condition persistent st = true <->
      sigterm_reported st = false
      /\ (persistent = true \/ nbd_started st = false \/ 0 < nb_fds st))
  /\ (forall persistent events rest st,
        main_loop persistent (events :: rest) st
        = if loop_condition persistent (main_loop_wait events st)
          then main_loop persistent rest (main_loop_wait events st)
          else Some (main_loop_wait events st))
  /\ (forall events rest st,
        nbd_started (main_loop_wait events st) = true ->
        nb_fds (main_loop_wait events st) = 0 ->
        main_loop false (events :: rest) st
        = Some (main_loop_wait events st))
  /\ (forall iterations st st',
        main_loop true iterations st = Some st' ->
        sigterm_reported st' = true)
  /\ (forall iterations st,
        sigterm_reported st = false ->
        (forall events, In events iterations -> ~ In Sigterm events) ->
        main_loop true iterations st = None)
  /\ (forall persistent events rest st,
        In Sigterm events ->
        main_loop persistent (events :: rest) st
        = Some (main_loop_wait events st)).
Proof.
  split; [exact loop_condition_true |].
  split; [exact main_loop_cons |].
  split; [| split; [| split]].
  - intros events rest st Hs Hn. rewrite main_loop_cons.
    unfold loop_condition. rewrite Hs, Hn. cbn.
    rewrite andb_false_r. reflexivity.
  - induction iterations as [| events rest IH]; intros st st' H;
      [discriminate H |].
    rewrite main_loop_cons in H.
    destruct (loop_condition true (main_loop_wait events st)) eqn:C.
    + apply (IH _ _ H).
    + injection H as <-. unfold loop_condition in C. cbn in C.
      rewrite andb_true_r in C. apply negb_false_iff. exact C.
  - induction iterations as [| events rest IH]; intros st Hs Hno;
      [reflexivity |].
    rewrite main_loop_cons.
    assert (S' : sigterm_reported (main_loop_wait events st) = false).
    { rewrite sigterm_absent; [exact Hs |]. apply Hno. left. reflexivity. }
    unfold loop_condition. rewrite S'. cbn.
    apply IH; [exact S' |]. intros ev Hin. apply Hno. right. exact Hin.
  - intros persistent events rest st Hin. rewrite main_loop_cons.
    unfold loop_condition. rewrite (sigterm_delivered events st Hin).
    reflexivity.
Qed.

Lemma loop_exit_condition_witness :
  main_loop false [[Readable 3 true]; [Closed]; [Readable 4 true]]
            (initial 1)
  = Some {| sigterm_reported := false; nbd_started := true;
            shared := 1; nb_fds := 0 |}
  /\ main_loop true [[Readable 3 true]; [Closed]; []] (initial 1) = None
  /\ main_loop true [[Readable 3 true]; [Closed; Sigterm]; []] (initial 1)
     = Some {| sigterm_reported := true; nbd_started := true;
               shared := 1; nb_fds := 0 |}.
Proof.
  destruct loop_exit_condition as (_ & Step & Last & _ & Never & Term).
  split; [| split].
  - rewrite Step. cbn [loop_condition].
    change (main_loop false [[Closed]; [Readable 4 true]]
              (main_loop_wait [Readable 3 true] (initial 1))
            = Some (main_loop_wait [Closed]
                      (main_loop_wait [Readable 3 true] (initial 1)))).
    apply Last; reflexivity.
  - apply Never; [reflexivity |].
    intros events [<- | [<- | [<- | []]]]; cbn; intuition discriminate.
  - rewrite Step.
    change (main_loop true [[Closed; Sigterm]; []]
              (main_loop_wait [Readable 3 true] (initial 1))
            = Some (main_loop_wait [Closed; Sigterm]
                      (main_loop_wait [Readable 3 true] (initial 1)))).
    apply Term. right. left. reflexivity.
Defined.

(** * Further properties *)

(** ** read_partition: what the fields keep of the bytes *)

(** X1: the start and the length of a slot are the little-endian values
    of bytes 8..11 and 12..15, also when the top byte is [0x80] or more;
    a slot whose bytes 8..15 are the little-endian encodings of [v] and
    [w] decodes to [v] and [w] taken modulo [2^32]. *)
Theorem sector_fields_little_endian :
  (forall p : list byte,
      start_sector_abs (read_partition p)
      = le_combine [nth 8 p Byte.x00; nth 9 p Byte.x00;
                    nth 10 p Byte.x00; nth 11 p Byte.x00]
      /\ nb_sectors_abs (read_partition p)
         = le_combine [nth 12 p Byte.x00; nth 13 p Byte.x00;
                       nth 14 p Byte.x00; nth 15 p Byte.x00])
  /\ (forall (chs : list byte) (v w : Z) (rest : list byte),
         length chs = 8%nat ->
         let p := chs ++ le_split 4 v ++ le_split 4 w ++ rest in
         start_sector_abs (read_partition p) = v mod 2 ^ 32
         /\ nb_sectors_abs (read_partition p) = w mod 2 ^ 32).
Proof.
  split.
  - intros p. split; [apply start_sector_abs_le | apply nb_sectors_abs_le].
  - intros chs v w rest L p.
    rewrite start_sector_abs_le, nb_sectors_abs_le.
    destruct chs as [| c0 [| c1 [| c2 [| c3 [| c4 [| c5 [| c6 [| c7
      [| ? ?]]]]]]]]]; try discriminate L.
    subst p. cbn [app nth le_split].
    split.
    + apply (le_combine_split 4 v).
    + apply (le_combine_split 4 w).
Qed.

Lemma sector_fields_little_endian_witness :
  start_sector_abs (read_partition (Fixtures.mk_slot 0x83 0x89ABCDEF 7))
  = 0x89ABCDEF.
Proof.
  exact (proj1 (proj2 sector_fields_little_endian
                  [Byte.x00; Byte.x00; Byte.x00; Byte.x00; byte.of_Z 0x83;
                   Byte.x00; Byte.x00; Byte.x00]
                  0x89ABCDEF 7 [] eq_refl)).
Defined.

(** X2: the start fields lose nothing of bytes 2 and 3: byte 3 is the low
    byte of [start_cylinder] and byte 2 is [start_sector] plus 64 times
    the top two bits of [start_cylinder]. *)
Theorem start_chs_lossless (p : list byte) :
  idx p 3 = start_cylinder (read_partition p) mod 256
  /\ idx p 2 = start_sector (read_partition p)
               + 64 * (start_cylinder (read_partition p) / 256).
Proof.
  rewrite start_cylinder_spec, start_sector_spec.
  pose proof (idx_range p 3) as R3.
  assert (D : (idx p 3 + 256 * (idx p 2 / 64)) / 256 = idx p 2 / 64).
  { rewrite (Z.mul_comm 256), Z.div_add by lia.
    rewrite (Z.div_small (idx p 3)) by lia. lia. }
  split.
  - rewrite (Z.mul_comm 256), Z.mod_add by lia.
    symmetry. apply Z.mod_small. exact R3.
  - rewrite D. pose proof (Z.div_mod (idx p 2) 64). lia.
Qed.

(** ** find_partition: outcomes, reads and numbering *)

(** X3: [find_partition] ends in one of four ways: success, [-EINVAL],
    [-ENOENT], or the end of the process with [EXIT_FAILURE].  It returns
    [-EINVAL] exactly when sector 0 was read and fails the signature test,
    and it ends the process exactly when a read it made failed. *)
Theorem find_partition_outcomes (bs : BlockDriverState) (partition : Z) :
  let r := snd (find_partition bs partition) in
  ((exists o s, r = Found o s) \/ r = Failed (- EINVAL)
   \/ r = Failed (- ENOENT) \/ r = Exited EXIT_FAILURE)
  /\ (r = Failed (- EINVAL) <->
      exists data, bdrv_read bs 0 = Some data /\ bad_signature data = true)
  /\ (r = Exited EXIT_FAILURE <->
      exists n, In n (fst (find_partition bs partition))
                /\ bdrv_read bs n = None).
Proof.
  unfold find_partition.
  destruct (bdrv_read bs 0) as [data |] eqn:R0.
  2: { cbn [fst snd]. split; [auto |]. split.
       - split; [discriminate | intros (d & H & _); discriminate H].
       - split; [| reflexivity]. intros _. exists 0.
         split; [left; reflexivity | exact R0]. }
  destruct (bad_signature data) eqn:B.
  { cbn [fst snd]. split; [auto |]. split.
    - split; [| reflexivity]. intros _. exists data. auto.
    - split; [discriminate |].
      intros (n & [<- | []] & Hn). congruence. }
  pose proof (mbr_loop_exited bs partition data [0; 1; 2; 3] 4) as [E1 E2].
  pose proof (mbr_loop_failed bs partition data [0; 1; 2; 3] 4) as F.
  destruct (mbr_loop bs partition data [0; 1; 2; 3] 4) as [t r].
  cbn [fst snd] in *. split; [| split].
  - destruct r as [o s | ret | status].
    + left. exists o, s. reflexivity.
    + right. right. left. rewrite (F ret eq_refl). reflexivity.
    + right. right. right. rewrite (E1 status eq_refl). reflexivity.
  - split.
    + intros ->. specialize (F _ eq_refl). discriminate F.
    + intros (d & Hd & Bd). congruence.
  - split.
    + intros ->. destruct (proj1 E2 (ex_intro _ _ eq_refl)) as (n & Hi & Hn).
      exists n. split; [right |]; assumption.
    + intros (n & [<- | Hi] & Hn); [congruence |].
      destruct (proj2 E2 (ex_intro _ n (conj Hi Hn))) as [status ->].
      rewrite (E1 status eq_refl). reflexivity.
Qed.

(** X4: [find_partition] reads sector 0 first and then only sectors named
    as the start of a container by a primary slot of sector 0, in table
    order and without a gap: at most five reads, never a sector that a
    container sector names. *)
Theorem find_partition_reads (bs : BlockDriverState) (partition : Z) :
  (length (fst (find_partition bs partition)) <= 5)%nat
  /\ hd_error (fst (find_partition bs partition)) = Some 0
  /\ forall data, bdrv_read bs 0 = Some data ->
       exists k,
         fst (find_partition bs partition)
         = 0 :: firstn k (map (fun i => start_sector_abs (slot data i))
                              (containers data)).
Proof.
  unfold find_partition.
  destruct (bdrv_read bs 0) as [data |] eqn:R0.
  2: { cbn. split; [lia |]. split; [reflexivity | discriminate]. }
  destruct (bad_signature data).
  { cbn [fst length hd_error]. split; [lia |]. split; [reflexivity |].
    intros d H. exists 0%nat. reflexivity. }
  destruct (mbr_loop_reads_prefix bs partition data [0; 1; 2; 3] 4)
    as [k Hk].
  destruct (mbr_loop bs partition data [0; 1; 2; 3] 4) as [t r].
  cbn [fst] in *. subst t. fold (containers data).
  split; [| split].
  - cbn [length]. rewrite length_firstn, length_map.
    pose proof (containers_at_most_4 data). lia.
  - reflexivity.
  - intros d H. injection H as <-. exists k. reflexivity.
Qed.

(** X5: a successful lookup returns the slot that carries the number:
    for a number [i + 1] in 1..4 the primary slot [i], which is then in
    use and no container; otherwise sub-slot [j] of the [c]-th container
    with [partition = 4 + 4 * c + j + 1], which is then in use.  The
    offset and the size are the start and the length of that slot times
    512. *)
Theorem found_partition_is_numbered (bs : BlockDriverState)
    (partition : Z) (reads : list Z) (offset size : Z) :
  find_partition bs partition = (reads, Found offset size) ->
  exists data,
    bdrv_read bs 0 = Some data /\ bad_signature data = false
    /\ ((exists i, 0 <= i < 4 /\ i + 1 = partition
                   /\ nb_sectors_abs (slot data i) <> 0
                   /\ is_container (slot data i) = false
                   /\ offset = start_sector_abs (slot data i) * 512
                   /\ size = nb_sectors_abs (slot data i) * 512)
        \/ (exists (c : nat) i data1 j,
               nth_error (containers data) c = Some i
               /\ bdrv_read bs (start_sector_abs (slot data i)) = Some data1
               /\ 0 <= j < 4
               /\ nb_sectors_abs (slot data1 j) <> 0
               /\ partition = 4 + 4 * Z.of_nat c + j + 1
               /\ offset = start_sector_abs (slot data1 j) * 512
               /\ size = nb_sectors_abs (slot data1 j) * 512)).
Proof.
  intros H. apply find_partition_found_cases in H.
  destruct H as (data & R & B & C). exists data.
  split; [exact R |]. split; [exact B |].
  destruct C as [(i & Hi & Hp & Hnb & Hc & -> & ->)
                | (c & i & d & j & Hc & Rd & Hj & Hnb & Hp & -> & ->)].
  - left. exists i.
    rewrite !shl9_exact
      by (apply start_sector_abs_range || apply nb_sectors_abs_range).
    auto 10.
  - right. exists c, i, d, j.
    rewrite !shl9_exact
      by (apply start_sector_abs_range || apply nb_sectors_abs_range).
    auto 10.
Qed.

Lemma found_partition_is_numbered_witness :
  exists data,
    bdrv_read two_image 0 = Some data /\ bad_signature data = false
    /\ ((exists i, 0 <= i < 4 /\ i + 1 = 10
                   /\ nb_sectors_abs (slot data i) <> 0
                   /\ is_container (slot data i) = false
                   /\ 1029120 = start_sector_abs (slot data i) * 512
                   /\ 4608 = nb_sectors_abs (slot data i) * 512)
        \/ (exists (c : nat) i data1 j,
               nth_error (containers data) c = Some i
               /\ bdrv_read two_image (start_sector_abs (slot data i))
                  = Some data1
               /\ 0 <= j < 4
               /\ nb_sectors_abs (slot data1 j) <> 0
               /\ 10 = 4 + 4 * Z.of_nat c + j + 1
               /\ 1029120 = start_sector_abs (slot data1 j) * 512
               /\ 4608 = nb_sectors_abs (slot data1 j) * 512)).
Proof.
  exact (found_partition_is_numbered two_image 10 [0; 1000; 2000]
           1029120 4608 eq_refl).
Defined.

(** X6: only numbers from 1 to 20 are ever found, and none above four
    times the number of containers plus four. *)
Theorem found_partition_number_range (bs : BlockDriverState)
    (partition : Z) (reads : list Z) (offset size : Z) :
  find_partition bs partition = (reads, Found offset size) ->
  1 <= partition <= 20
  /\ exists data,
       bdrv_read bs 0 = Some data
       /\ partition <= 4 + 4 * Z.of_nat (length (containers data)).
Proof.
  intros H. apply find_partition_found_cases in H.
  destruct H as (data & R & B & C).
  pose proof (containers_at_most_4 data) as L.
  assert (G : 1 <= partition
              <= 4 + 4 * Z.of_nat (length (containers data))).
  { destruct C as [(i & Hi & Hp & _)
                  | (c & i & d & j & Hc & _ & Hj & _ & Hp & _)].
    - lia.
    - assert (c < length (containers data))%nat
        by (apply nth_error_Some; congruence).
      lia. }
  split; [lia |]. exists data. split; [exact R | lia].
Qed.

Lemma found_partition_number_range_witness :
  1 <= 9 <= 20
  /\ exists data,
       bdrv_read two_image 0 = Some data
       /\ 9 <= 4 + 4 * Z.of_nat (length (containers data)).
Proof.
  exact (found_partition_number_range two_image 9 [0; 1000; 2000]
           1024512 3584 eq_refl).
Defined.

(** ** find_partition: the bytes it looks at *)

Lemma slot_tail (data : list byte) (i : Z) :
  0 <= i ->
  slot data i = read_partition (ptr (skipn 446 data) (16 * i)).
Proof.
  intros Hi. unfold slot, ptr. rewrite skipn_skipn. do 2 f_equal. lia.
Qed.

Lemma slot_same_tail (d d' : list byte) (i : Z) :
  skipn 446 d = skipn 446 d' -> 0 <= i -> slot d i = slot d' i.
Proof. intros E Hi. rewrite !slot_tail by exact Hi. rewrite E. reflexivity. Qed.

Lemma bad_signature_same_tail (d d' : list byte) :
  skipn 446 d = skipn 446 d' -> bad_signature d = bad_signature d'.
Proof.
  intros E. unfold bad_signature, idx.
  change (Z.to_nat 510) with (446 + 64)%nat.
  change (Z.to_nat 511) with (446 + 65)%nat.
  rewrite <- !nth_skipn, E. reflexivity.
Qed.

Lemma ext_loop_same_tail (partition e : Z) (d d' : list byte) :
  skipn 446 d = skipn 446 d' ->
  forall jvals, Forall (fun j => 0 <= j) jvals ->
                ext_loop partition e d jvals = ext_loop partition e d' jvals.
Proof.
  intros E. induction jvals as [| j jvals IH]; intros F; [reflexivity |].
  inversion F as [| ? ? Hj F']; subst.
  cbn [ext_loop]. rewrite (slot_same_tail d d' j E Hj), (IH F').
  reflexivity.
Qed.

Lemma mbr_loop_same_tail (bs bs' : BlockDriverState) (partition : Z)
    (d d' : list byte) :
  same_tables bs bs' ->
  skipn 446 d = skipn 446 d' ->
  forall ivals e, Forall (fun i => 0 <= i) ivals ->
                  mbr_loop bs partition d ivals e
                  = mbr_loop bs' partition d' ivals e.
Proof.
  intros T E. induction ivals as [| i ivals IH]; intros e F; [reflexivity |].
  inversion F as [| ? ? Hi F']; subst.
  rewrite !mbr_loop_cons. rewrite <- (slot_same_tail d d' i E Hi).
  rewrite (IH e F'), (IH (e + 4) F').
  destruct (is_container (slot d i)); [| reflexivity].
  specialize (T (start_sector_abs (slot d i))).
  destruct (bdrv_read bs (start_sector_abs (slot d i))) as [d1 |];
    destruct (bdrv_read bs' (start_sector_abs (slot d i))) as [d1' |];
    try discriminate T; [| reflexivity].
  injection T as T.
  rewrite (ext_loop_same_tail partition e d1 d1' T);
    [reflexivity | repeat constructor; lia].
Qed.

(** X7: [find_partition] looks at no byte before offset 446 of any
    sector: two images whose sectors agree from byte 446 on (and fail to
    be read at the same places) give the same reads and the same
    result. *)
Theorem find_partition_ignores_boot_code (bs bs' : BlockDriverState)
    (partition : Z) :
  same_tables bs bs' ->
  find_partition bs partition = find_partition bs' partition.
Proof.
  intros T. unfold find_partition. pose proof (T 0) as T0.
  destruct (bdrv_read bs 0) as [d |]; destruct (bdrv_read bs' 0) as [d' |];
    try discriminate T0; [| reflexivity].
  injection T0 as T0.
  rewrite (bad_signature_same_tail d d' T0).
  rewrite (mbr_loop_same_tail bs bs' partition d d' T T0);
    [reflexivity | repeat constructor; lia].
Qed.

Lemma find_partition_ignores_boot_code_witness :
  let bs' := image [(0, repeat Byte.xff 446 ++ skipn 446 single_sector0)] in
  same_tables single_image bs'
  /\ bdrv_read single_image 0 <> bdrv_read bs' 0
  /\ find_partition single_image 1 = find_partition bs' 1.
Proof.
  intros bs'.
  assert (T : same_tables single_image bs').
  { intros n. unfold bs', single_image, image, bdrv_read.
    cbn [sector_at lookup]. destruct (0 =? n); reflexivity. }
  split; [exact T |]. split; [vm_compute; discriminate |].
  exact (find_partition_ignores_boot_code single_image bs' 1 T).
Defined.

(** ** The handlers over a run of events *)

Lemma main_loop_wait_shared (events : list event) :
  forall st, shared (main_loop_wait events st) = shared st.
Proof.
  induction events as [| e events IH]; intros st; [reflexivity |].
  rewrite main_loop_wait_cons, IH. apply dispatch_shared.
Qed.

Lemma dispatch_started (st : server) (e : event) :
  nbd_started st = true -> nbd_started (dispatch st e) = true.
Proof.
  intros H. destruct e as [fd client | |]; cbn; try exact H.
  destruct (nbd_can_accept st); [| exact H].
  unfold nbd_accept. destruct ((0 <=? fd) && client); reflexivity.
Qed.

Lemma main_loop_wait_started (events : list event) :
  forall st, nbd_started st = true ->
             nbd_started (main_loop_wait events st) = true.
Proof.
  induction events as [| e events IH]; intros st H; [exact H |].
  rewrite main_loop_wait_cons. apply IH. apply dispatch_started. exact H.
Qed.

(** X8: as long as every close comes while a client is counted, the
    number of counted clients stays between 0 and [shared] through any
    run of the handlers: the listening socket is never served beyond the
    limit. *)
Theorem client_count_within_limit (events : list event) :
  forall st : server,
    0 <= nb_fds st <= shared st ->
    shared st <= INT_MAX ->
    closes_matched events st ->
    0 <= nb_fds (main_loop_wait events st) <= shared st.
Proof.
  induction events as [| e events IH]; intros st Hn Hs Hm; [exact Hn |].
  rewrite main_loop_wait_cons. destruct Hm as [Hc Hm].
  rewrite <- (dispatch_shared st e).
  apply IH; [| rewrite dispatch_shared; exact Hs | exact Hm].
  rewrite dispatch_shared.
  destruct e as [fd client | |].
  - destruct (Z.lt_ge_cases (nb_fds st) (shared st)) as [L | L].
    + cbn [dispatch]. rewrite (proj2 (can_accept_iff st) L).
      unfold nbd_accept. destruct ((0 <=? fd) && client); cbn; [| lia].
      rewrite to_int_small; unfold INT_MIN, INT_MAX in *; lia.
    + rewrite dispatch_saturated; [lia | discriminate | exact L].
  - specialize (Hc eq_refl). cbn.
    rewrite to_int_small; unfold INT_MIN, INT_MAX in *; lia.
  - cbn. lia.
Qed.

Lemma client_count_within_limit_witness :
  0 <= nb_fds (main_loop_wait
                 [Readable 5 true; Readable 6 true; Readable 7 true;
                  Closed; Readable 8 true]
                 (initial 2)) <= 2.
Proof.
  refine (client_count_within_limit
            [Readable 5 true; Readable 6 true; Readable 7 true;
             Closed; Readable 8 true] (initial 2) _ _ _).
  - cbn. lia.
  - vm_compute. discriminate.
  - cbn. repeat split; discriminate.
Defined.

(** X9: no handler ever resets a flag or writes [shared]: through any run
    of events [sigterm_reported] and [nbd_started] stay set once set and
    [shared] keeps its value; delivering the signal twice is the same as
    delivering it once. *)
Theorem flags_never_reset (events : list event) (st : server) :
  (sigterm_reported st = true ->
   sigterm_reported (main_loop_wait events st) = true)
  /\ (nbd_started st = true ->
      nbd_started (main_loop_wait events st) = true)
  /\ shared (main_loop_wait events st) = shared st
  /\ termsig_handler (termsig_handler st) = termsig_handler st.
Proof.
  split; [apply sigterm_sticky |].
  split; [apply main_loop_wait_started |].
  split; [apply main_loop_wait_shared | reflexivity].
Qed.

Lemma flags_never_reset_witness :
  sigterm_reported
    (main_loop_wait [Readable 3 true; Closed; Readable (-1) false]
                    (termsig_handler (initial 1))) = true.
Proof.
  exact (proj1 (flags_never_reset
                  [Readable 3 true; Closed; Readable (-1) false]
                  (termsig_handler (initial 1))) eq_refl).
Defined.

(** X17: an accepted connection and its close cancel out: after
    [nbd_accept] on a registered connection and [nbd_client_closed] the
    count is what it was, in either order, and [nbd_started] is set. *)
Theorem accept_then_close_restores (fd : Z) (st : server) :
  0 <= fd ->
  INT_MIN < nb_fds st < INT_MAX ->
  nb_fds (nbd_client_closed (nbd_accept fd true st)) = nb_fds st
  /\ nb_fds (nbd_accept fd true (nbd_client_closed st)) = nb_fds st
  /\ nbd_started (nbd_client_closed (nbd_accept fd true st)) = true
  /\ shared (nbd_client_closed (nbd_accept fd true st)) = shared st.
Proof.
  intros Hfd Hn. unfold nbd_accept, nbd_client_closed.
  rewrite (proj2 (Z.leb_le 0 fd) Hfd).
  cbn [andb set_nb_fds set_nbd_started nb_fds nbd_started shared].
  unfold INT_MIN, INT_MAX in Hn.
  rewrite (to_int_small (nb_fds st + 1))
    by (unfold INT_MIN, INT_MAX; lia).
  rewrite (to_int_small (nb_fds st - 1))
    by (unfold INT_MIN, INT_MAX; lia).
  rewrite !to_int_small by (unfold INT_MIN, INT_MAX; lia).
  repeat split; lia.
Qed.

Lemma accept_then_close_restores_witness :
  nb_fds (nbd_client_closed (nbd_accept 9 true (initial 4))) = 0.
Proof.
  refine (proj1 (accept_then_close_restores 9 (initial 4) _ _)).
  - lia.
  - vm_compute. split; reflexivity.
Defined.

(** ** The loop over its iterations *)

Lemma run_iterations_cons (events : list event)
    (iterations : list (list event)) (st : server) :
  run_iterations (events :: iterations) st
  = run_iterations iterations (main_loop_wait events st).
Proof. reflexivity. Qed.

(** X10: the loop is left at the first iteration after which its
    condition is false, in the state all iterations up to that one have
    produced; it is not left before, and not at all when no such iteration
    is among those given. *)
Theorem loop_exits_at_first_false (persistent : bool)
    (iterations : list (list event)) :
  forall st st' : server,
    main_loop persistent iterations st = Some st' <->
    exists pre events post,
      iterations = pre ++ events :: post
      /\ st' = run_iterations (pre ++ [events]) st
      /\ loop_condition persistent st' = false
      /\ forall pre1 events1 pre2,
           pre = pre1 ++ events1 :: pre2 ->
           loop_condition persistent
             (run_iterations (pre1 ++ [events1]) st) = true.
Proof.
  induction iterations as [| evs rest IH]; intros st st'.
  { split; [discriminate |].
    intros (pre & events & post & E & _). destruct pre; discriminate E. }
  rewrite main_loop_cons.
  destruct (loop_condition persistent (main_loop_wait evs st)) eqn:C.
  - rewrite IH. split.
    + intros (pre & events & post & E & Hst & Hc & Hpre).
      exists (evs :: pre), events, post.
      split; [rewrite E; reflexivity |].
      split; [exact Hst |]. split; [exact Hc |].
      intros [| e1 pre1] events1 pre2 Hp; injection Hp as <- Hp.
      * exact C.
      * apply (Hpre pre1 events1 pre2 Hp).
    + intros (pre & events & post & E & Hst & Hc & Hpre).
      destruct pre as [| e0 pre]; injection E as <- E.
      * subst st'. cbn in Hc. congruence.
      * exists pre, events, post.
        split; [exact E |]. split; [exact Hst |]. split; [exact Hc |].
        intros pre1 events1 pre2 Hp.
        apply (Hpre (evs :: pre1) events1 pre2). rewrite Hp. reflexivity.
  - split.
    + intros H. injection H as <-. exists [], evs, rest.
      split; [reflexivity |]. split; [reflexivity |]. split; [exact C |].
      intros [| ? ?] ? ? Hp; discriminate Hp.
    + intros (pre & events & post & E & Hst & Hc & Hpre).
      destruct pre as [| e0 pre]; injection E as <- E.
      * subst st'. reflexivity.
      * specialize (Hpre [] evs pre eq_refl). cbn in Hpre. congruence.
Qed.

Lemma loop_exits_at_first_false_witness :
  main_loop false [[Readable 3 true]; [Closed]; [Readable 4 true]]
            (initial 1)
  = Some (run_iterations [[Readable 3 true]; [Closed]] (initial 1)).
Proof.
  apply (proj2 (loop_exits_at_first_false false
                  [[Readable 3 true]; [Closed]; [Readable 4 true]]
                  (initial 1) _)).
  exists [[Readable 3 true]], [Closed], [[Readable 4 true]].
  split; [reflexivity |]. split; [reflexivity |]. split; [reflexivity |].
  intros [| e1 [| e2 pre1]] events1 pre2 Hp; try discriminate Hp.
  injection Hp as <- _. reflexivity.
Defined.

(** X11: what comes after the exit is never handled: once the loop is
    left in some state, further iterations change nothing. *)
Theorem loop_ignores_later_events (persistent : bool)
    (iterations more : list (list event)) :
  forall st st' : server,
    main_loop persistent iterations st = Some st' ->
    main_loop persistent (iterations ++ more) st = Some st'.
Proof.
  induction iterations as [| evs rest IH]; intros st st' H;
    [discriminate H |].
  cbn [app]. rewrite main_loop_cons in *.
  destruct (loop_condition persistent (main_loop_wait evs st));
    [apply IH |]; exact H.
Qed.

Lemma loop_ignores_later_events_witness :
  main_loop false ([[Readable 3 true]; [Closed]]
                   ++ [[Readable 4 true]; [Sigterm]]) (initial 1)
  = Some {| sigterm_reported := false; nbd_started := true;
            shared := 1; nb_fds := 0 |}.
Proof.
  exact (loop_ignores_later_events false [[Readable 3 true]; [Closed]]
           [[Readable 4 true]; [Sigterm]] (initial 1) _ eq_refl).
Defined.

(** X12: the loop waits at least once.  It is never left without a wait,
    and when the signal was reported before it is entered, the events of
    the first wait are still handled and the loop is left right after
    them. *)
Theorem loop_waits_at_least_once (persistent : bool) (st : server) :
  main_loop persistent [] st = None
  /\ forall events rest,
       sigterm_reported st = true ->
       main_loop persistent (events :: rest) st
       = Some (main_loop_wait events st).
Proof.
  split; [reflexivity |].
  intros events rest H. rewrite main_loop_cons.
  unfold loop_condition. rewrite (sigterm_sticky events st H). reflexivity.
Qed.

Lemma loop_waits_at_least_once_witness :
  main_loop true [[Readable 3 true]; [Closed]]
            (termsig_handler (initial 1))
  = Some {| sigterm_reported := true; nbd_started := true;
            shared := 1; nb_fds := 1 |}.
Proof.
  exact (proj2 (loop_waits_at_least_once true (termsig_handler (initial 1)))
           [Readable 3 true] [[Closed]] eq_refl).
Defined.

(** ** The client thread *)

(** Splits on the five tests of [nbd_client_thread]. *)
Ltac thread_paths env :=
  unfold nbd_client_thread, out;
  destruct (Z.ltb_spec (unix_socket_outgoing env) 0);
  [| destruct (Z.ltb_spec (nbd_receive_negotiate env) 0);
     [| destruct (Z.ltb_spec (open_device env) 0);
        [| destruct (Z.ltb_spec (nbd_init env) 0);
           [| destruct (Z.eqb_spec (nbd_client env) 0) ]]]];
  cbn [negb fst snd].

(** X13: the thread returns [EXIT_SUCCESS] exactly when the socket, the
    negotiation, the opening of the device and [nbd_init] all succeeded
    and [nbd_client] returned 0; in every other case it returns
    [EXIT_FAILURE]. *)
Theorem client_thread_status (env : thread_env) :
  (snd (nbd_client_thread env) = EXIT_SUCCESS <->
   0 <= unix_socket_outgoing env /\ 0 <= nbd_receive_negotiate env
   /\ 0 <= open_device env /\ 0 <= nbd_init env /\ nbd_client env = 0)
  /\ (snd (nbd_client_thread env) = EXIT_SUCCESS
      \/ snd (nbd_client_thread env) = EXIT_FAILURE).
Proof.
  thread_paths env; (split; [split | auto]);
    try discriminate; try (intros; lia); auto.
Qed.

(** X14: on every path the thread sends SIGTERM to the process, exactly
    once and as the last thing it does. *)
Theorem client_thread_always_signals (env : thread_env) :
  exists before,
    fst (nbd_client_thread env) = before ++ [KillSigterm]
    /\ ~ In KillSigterm before.
Proof.
  thread_paths env;
    match goal with
    | |- exists _, ?l ++ [KillSigterm] = _ /\ _ => exists l
    | |- exists _, _ = _ /\ _ =>
        exists [CallSocket; CallNegotiate (unix_socket_outgoing env);
                CallOpen;
                CallInit (open_device env) (unix_socket_outgoing env);
                SpawnShowParts;
                (if verbose env then PrintConnected else Dup2Stderr);
                CallClient (open_device env);
                CallClose (open_device env)]
    end;
    (split; [reflexivity |]); cbn [In]; destruct (verbose env);
    intuition discriminate.
Qed.

(** X15: the device descriptor is closed on the successful path only: a
    thread that fails after opening the device leaves it open.  The
    partition-table refresh is started exactly when [nbd_init] was
    reached and succeeded.  Whenever the refresh is started or
    [nbd_client] is entered, the calls up to [nbd_client] are, in this
    order: socket, negotiation, open, [nbd_init], start of the refresh,
    the report, [nbd_client] on the descriptor that was opened; on the
    successful path the close and the signal follow, and nothing else. *)
Theorem client_thread_descriptor (env : thread_env) :
  let sock := unix_socket_outgoing env in
  let fd0 := open_device env in
  let report := if verbose env then PrintConnected else Dup2Stderr in
  let entered :=
    [CallSocket; CallNegotiate sock; CallOpen; CallInit fd0 sock;
     SpawnShowParts; report; CallClient fd0] in
  (forall fd, In (CallClose fd) (fst (nbd_client_thread env)) <->
              snd (nbd_client_thread env) = EXIT_SUCCESS /\ fd = fd0)
  /\ (In SpawnShowParts (fst (nbd_client_thread env)) <->
      0 <= unix_socket_outgoing env /\ 0 <= nbd_receive_negotiate env
      /\ 0 <= open_device env /\ 0 <= nbd_init env)
  /\ (forall fd, In (CallClient fd) (fst (nbd_client_thread env)) ->
                 fd = fd0 /\ 0 <= nbd_init env
                 /\ exists rest,
                      fst (nbd_client_thread env) = entered ++ rest)
  /\ (In SpawnShowParts (fst (nbd_client_thread env)) ->
      exists rest, fst (nbd_client_thread env) = entered ++ rest)
  /\ (snd (nbd_client_thread env) = EXIT_SUCCESS ->
      fst (nbd_client_thread env)
      = entered ++ [CallClose fd0; KillSigterm]).
Proof.
  intros sock fd0 report entered. subst sock fd0 report entered.
  thread_paths env; cbn [app In]; destruct (verbose env);
    (split; [intros fd; split | split; [split |]]);
    try (split; [intros fd | split]);
    try (intros [? ?]; discriminate);
    try (intros; exfalso; lia);
    try (intuition (discriminate || congruence || lia));
    try discriminate.
  all: try (intros [E | [E | [E | [E | [E | [E | [E | [E | []]]]]]]]];
            try discriminate E; injection E as <-).
  all: try (intros [E | [E | [E | [E | [E | [E | [E | [E | [E | []]]]]]]]]];
            try discriminate E; try injection E as <-).
  all: try (split; [reflexivity |]; split; [assumption |]).
  all: try (eexists; reflexivity).
Qed.

(** ** main *)

(** X16: [main] never looks a partition up: whatever the image holds it
    reads no sector for that and exports the whole device, from offset 0
    and with the length [bdrv_getlength] gave.  It returns 1, without
    entering the loop or closing the export, exactly when the listening
    socket could not be made; otherwise it runs the loop without [-t]
    from the initial state with [shared = 1], and ends with
    [exit(EXIT_SUCCESS)] after closing the export exactly when that loop
    is left.  Failures of [bdrv_open_debug] and of [chdir] change none of
    this. *)
Theorem main_outcome (env : main_env) (bs : BlockDriverState)
    (iterations : list (list event)) :
  lookup_reads (main env bs iterations) = []
  /\ exported (main env bs iterations) = Some (0, bdrv_getlength env)
  /\ (ended (main env bs iterations) = Return 1 <->
      tcp_socket_incoming env < 0)
  /\ (ended (main env bs iterations) = Exit EXIT_SUCCESS <->
      0 <= tcp_socket_incoming env
      /\ exists st, main_loop false iterations (initial 1) = Some st)
  /\ (ended (main env bs iterations) = StillRunning <->
      0 <= tcp_socket_incoming env
      /\ main_loop false iterations (initial 1) = None)
  /\ (export_closed (main env bs iterations) = true <->
      ended (main env bs iterations) = Exit EXIT_SUCCESS).
Proof.
  unfold main. cbn [Z.eqb Pos.eqb negb]. unfold main_serve.
  destruct (Z.ltb_spec (tcp_socket_incoming env) 0) as [L | L];
    [| destruct (main_loop false iterations (initial 1)) as [st |]];
    cbn [lookup_reads exported ended export_closed];
    (split; [reflexivity |]); (split; [reflexivity |]);
    repeat split; try discriminate; try (intros; lia);
    try (intros [? [? ?]]; discriminate);
    try (intros [? ?]; (lia || discriminate)); eauto.
Qed.

Lemma main_outcome_witness :
  let env := {| bdrv_open_debug := -2; bdrv_getlength := 1048576;
                tcp_socket_incoming := 4; chdir_root := -1;
                pthread_join := 0 |} in
  let run := main env gap_image [[Readable 5 true]; [Closed]; [Sigterm]] in
  exported run = Some (0, 1048576)
  /\ ended run = Exit EXIT_SUCCESS.
Proof.
  intros env run.
  destruct (main_outcome env gap_image
              [[Readable 5 true]; [Closed]; [Sigterm]])
    as (_ & A & _ & B & _).
  split; [exact A |].
  apply (proj2 B). split; [cbn; lia |].
  eexists. reflexivity.
Defined.
